(** * pomdp_py.utils.debugging: a shallow embedding of the search-tree debugger

    The development follows [src/pomdp_py/utils/debugging.py]:
    - Python values used as edge labels and lookup keys ([label]);
    - the planner's tree nodes ([TreeNode]) and the printing proxies
      ([NodePP], the classes [_QNodePP] and [_VNodePP]);
    - [sorted_by_str], [_NodePP.__getitem__], [_print_tree_helper],
      [single_node_str], [tree_stats], [layer], [num_nodes] and
      [print_preferred_actions].

    Recursive traversals of the tree are written with a [fuel] argument and
    are run with fuel [S (height root)], which is always enough. *)

From Stdlib Require Import List ZArith QArith Bool String Ascii Lia.
From Stdlib Require Import DecimalString Sorted Permutation.
Import ListNotations.

#[local] Set Warnings "-register-all".
#[local] Open Scope string_scope.
#[local] Open Scope Z_scope.

(* ------------------------------------------------------------------ *)
(** ** Python values used as edge labels and as lookup keys *)

(** An edge label is an action or an observation; a lookup key may also be an
    integer or a string.  [PyObj name] is an object whose [str] is [name] and
    whose equality is equality of names. *)
Inductive label : Type :=
| PyInt (z : Z)
| PyStr (s : string)
| PyObj (name : string).

Definition label_eqb (a b : label) : bool :=
  match a, b with
  | PyInt x, PyInt y => Z.eqb x y
  | PyStr x, PyStr y => String.eqb x y
  | PyObj x, PyObj y => String.eqb x y
  | _, _ => false
  end.

Definition str_of_Z (z : Z) : string := NilZero.string_of_int (Z.to_int z).

(** [str(x)] *)
Definition str (x : label) : string :=
  match x with
  | PyInt z => str_of_Z z
  | PyStr s => s
  | PyObj name => name
  end.

(** Exceptions raised by the module, with the message that tells them apart. *)
Inductive message : Type :=
| CannotAccessChildren (key : label)     (* "Cannot access children with key {}" *)
| MaxEmptySequence                       (* raised by max() on an empty iterable *)
| DepthOutOfRange (depth maximum : Z)    (* "Depth {} is out of range (maximum: {})" *)
| InvalidKind (kind : string)            (* "Invalid value for kind={}; ..." *)
| NotATreeNode.                          (* "Expecting tree to be a TreeNode, ..." *)

Inductive exn : Type :=
| ValueError (msg : message)
| IndexError
| KeyError (key : label)
| AttributeError                         (* attribute access on None *)
| RecursionError.                        (* the traversal ran out of fuel *)

Definition result (A : Type) : Type := (exn + A)%type.

Definition ret {A} (a : A) : result A := inr a.
Definition raise {A} (e : exn) : result A := inl e.
Definition bind {A B} (m : result A) (k : A -> result B) : result B :=
  match m with
  | inl e => inl e
  | inr a => k a
  end.

Notation "x <- m ;; k" := (bind m (fun x => k))
  (at level 61, m at next level, right associativity).

(** A [for] loop whose body may raise: the accumulator is threaded through. *)
Fixpoint for_each {A B} (l : list A) (body : B -> A -> result B) (acc : B)
  : result B :=
  match l with
  | [] => ret acc
  | x :: xs => acc' <- body acc x ;; for_each xs body acc'
  end.

(** [enumerate(l)] *)
Definition enumerate {A} (l : list A) : list (Z * A) :=
  combine (map Z.of_nat (seq 0 (List.length l))) l.

(** [s * n] on a string *)
Fixpoint str_repeat (s : string) (n : nat) : string :=
  match n with
  | O => ""
  | S n' => s ++ str_repeat s n'
  end.

Definition newline : string := String (ascii_of_nat 10) EmptyString.

(* ------------------------------------------------------------------ *)
(** ** [sorted_by_str] *)

(** [sorted(enumerable, key=lambda n: str(n))]: a stable sort, ascending in the
    string form; strings compare by code point, that is byte-wise on UTF-8. *)
Fixpoint insert_by_str (x : label) (l : list label) : list label :=
  match l with
  | [] => [x]
  | y :: ys =>
      if String.leb (str x) (str y) then x :: l else y :: insert_by_str x ys
  end.

Definition sorted_by_str (enumerable : list label) : list label :=
  fold_right insert_by_str [] enumerable.

(* ------------------------------------------------------------------ *)
(** ** Tree nodes *)

Inductive node_class : Type := VNode | QNode.

(** Modelled from the spec: the planner's tree node ([TreeNode], [QNode],
    [VNode] of [pomdp_py.algorithms.po_uct], which is not part of the
    sources).  A node has a visit count, a value and a dict from edge label to
    child; the dict keeps insertion order, so it is an association list. *)
Inductive TreeNode : Type :=
  mkTreeNode {
    cls : node_class;
    num_visits : Z;
    value : Q;
    children : list (label * TreeNode)
  }.

Definition dict := list (label * TreeNode).

Definition keys (d : dict) : list label := map fst d.

(** [key in d] *)
Definition dict_contains (key : label) (d : dict) : bool :=
  existsb (label_eqb key) (keys d).

(** [d.get(key)] *)
Fixpoint dict_get (d : dict) (key : label) : option TreeNode :=
  match d with
  | [] => None
  | (k, v) :: rest => if label_eqb key k then Some v else dict_get rest key
  end.

(** [d[key]] *)
Definition dict_getitem (d : dict) (key : label) : result TreeNode :=
  match dict_get d key with
  | Some v => ret v
  | None => raise (KeyError key)
  end.

(** Keys of a Python dict are pairwise different, at every node. *)
Inductive dict_ok : TreeNode -> Prop :=
| dict_ok_intro : forall t,
    NoDup (keys (children t)) ->
    Forall (fun kv => dict_ok (snd kv)) (children t) ->
    dict_ok t.

Fixpoint height (t : TreeNode) : nat :=
  match t with
  | mkTreeNode _ _ _ ch => S (list_max (map (fun kv => height (snd kv)) ch))
  end.

(* ------------------------------------------------------------------ *)
(** ** The printing proxies [_QNodePP] and [_VNodePP] *)

(** A proxy copies the visit count and value of the node it wraps, shares its
    children dict, and carries [parent_edge] and [print_children]. *)
Record NodePP : Type :=
  mkNodePP {
    node : TreeNode;
    parent_edge : option label;
    print_children : bool
  }.

(** [_node_pp(node, p)]: [__init__] sets [print_children = True]. *)
Definition _node_pp (n : TreeNode) (p : option label) : NodePP :=
  {| node := n; parent_edge := p; print_children := true |}.

Definition isinstance_VNode (n : NodePP) : bool :=
  match cls (node n) with VNode => true | QNode => false end.

Definition isinstance_QNode (n : NodePP) : bool :=
  match cls (node n) with QNode => true | VNode => false end.

(** [edges[key]] on a Python list: negative indices count from the end. *)
Definition list_getitem {A} (l : list A) (key : Z) : result A :=
  let n := Z.of_nat (List.length l) in
  if (0 <=? key) && (key <? n) then
    match nth_error l (Z.to_nat key) with
    | Some x => ret x
    | None => raise IndexError
    end
  else if (- n <=? key) && (key <? 0) then
    match nth_error l (Z.to_nat (n + key)) with
    | Some x => ret x
    | None => raise IndexError
    end
  else raise IndexError.

Definition Qltb (x y : Q) : bool := negb (Qle_bool y x).

(** [max(iterable, key=f)]: the first element with the greatest key; raises
    [ValueError] on an empty iterable. *)
Definition py_max {A} (f : A -> Q) (l : list A) : result A :=
  match l with
  | [] => raise (ValueError MaxEmptySequence)
  | x :: xs =>
      ret (fold_left (fun best y => if Qltb (f best) (f y) then y else best) xs x)
  end.

Definition SIMILAR_THRESH : Q := 6 # 10.

(* ------------------------------------------------------------------ *)
(** ** Example data *)

(** Stand-ins for the collaborators, to run the functions on examples. *)
Definition similar_example (a b : string) : Q :=
  if String.eqb a b then 1%Q else 0%Q.

Definition plain (s : string) : string := s.

Definition format_example (q : Q) : string :=
  str_of_Z (Qnum q / Zpos (Qden q)).

Definition leaf (k : node_class) (n : Z) (v : Q) : TreeNode :=
  mkTreeNode k n v [].

(** A decision node with the action children "up" and "down". *)
Definition up_down : TreeNode :=
  mkTreeNode VNode 6 0
    [(PyStr "up", leaf QNode 5 1); (PyStr "down", leaf QNode 1 2)].

(** A decision node, an action below it, a decision node below that. *)
Definition chain : TreeNode :=
  mkTreeNode VNode 3 0
    [(PyStr "a", mkTreeNode QNode 2 1 [(PyStr "o", leaf VNode 1 0)])].

(** A decision node whose first action leads three decision levels down and
    whose second action leads one level down. *)
Definition deep_first : TreeNode :=
  mkTreeNode VNode 9 0
    [(PyStr "a",
      mkTreeNode QNode 5 1
        [(PyStr "o",
          mkTreeNode VNode 4 0
            [(PyStr "b",
              mkTreeNode QNode 3 1
                [(PyStr "p",
                  mkTreeNode VNode 2 0
                    [(PyStr "c",
                      mkTreeNode QNode 2 1 [(PyStr "r", leaf VNode 1 0)])])])])]);
     (PyStr "z", mkTreeNode QNode 3 1 [(PyStr "q", leaf VNode 1 0)])].

(** An action node without children. *)
Definition childless : TreeNode := leaf QNode 1 0.


Section Debugging.

(** [pomdp_py.utils.similar]: the similarity score of two strings. *)
Variable similar : string -> string -> Q.

(** [_NodePP.__getitem__] *)
Definition getitem (self : NodePP) (key : label) : result NodePP :=
  let d := children (node self) in
  if dict_contains key d then
    c <- dict_getitem d key ;;
    ret (_node_pp c (Some key))
  else
    match key with
    | PyInt k =>
        let edges := sorted_by_str (keys d) in
        e <- list_getitem edges k ;;
        c <- dict_getitem d e ;;
        ret (_node_pp c (Some e))
    | PyStr s =>
        chosen <- py_max (fun edge => similar (str edge) s) (keys d) ;;
        if Qle_bool SIMILAR_THRESH (similar (str chosen) s) then
          c <- dict_getitem d chosen ;;
          ret (_node_pp c (Some chosen))
        else raise (ValueError (CannotAccessChildren key))
    | PyObj _ => raise (ValueError (CannotAccessChildren key))
    end.

(* ------------------------------------------------------------------ *)
(** ** [TreeDebugger.single_node_str] and [__str__] *)

(** [pomdp_py.utils.typ]: terminal colours. *)
Variables typ_green typ_red typ_white typ_cyan : string -> string.

(** ["{:.3f}".format(value)] *)
Variable format_3f : Q -> string.

(** [node.__class__.__name__] of a tree node and of a proxy. *)
Definition class_name (n : TreeNode) : string :=
  match cls n with VNode => "VNode" | QNode => "QNode" end.

Definition pp_class_name (n : TreeNode) : string :=
  match cls n with VNode => "_VNodePP" | QNode => "_QNodePP" end.

(** The part of [single_node_str] before [if include_children]. *)
Definition node_header (name : string) (n : TreeNode) (parent_edge : option label)
  : string :=
  let color := match cls n with VNode => typ_green | QNode => typ_red end in
  let opposite_color := match cls n with VNode => typ_red | QNode => typ_green end in
  let output := "" in
  let output :=
    match parent_edge with
    | Some e => output ++ opposite_color (str e) ++ "⟶"
    | None => output
    end in
  output ++ color name
    ++ "(n=" ++ str_of_Z (num_visits n) ++ ", v=" ++ format_3f (value n) ++ ")".

(** The loop of [single_node_str] over [enumerate(sorted_by_str(node.children))];
    the inner call has [include_children=False] and no parent edge. *)
Definition children_listing (n : TreeNode) (indent : nat) : result string :=
  for_each (enumerate (sorted_by_str (keys (children n))))
    (fun output ia =>
       let '(i, action) := ia in
       child <- dict_getitem (children n) action ;;
       let child_info := node_header (class_name child) child None in
       let spaces := str_repeat "    " indent in
       let output :=
         output ++ spaces ++ "- [" ++ str_of_Z i ++ "] "
                ++ typ_white (str action) ++ ": " ++ child_info in
       ret (if i <? Z.of_nat (List.length (children n)) - 1
            then output ++ newline else output))
    "".

Definition single_node_str (name : string) (n : TreeNode)
  (parent_edge : option label) (indent : nat) (include_children : bool)
  : result string :=
  let output := node_header name n parent_edge in
  if include_children then
    listing <- children_listing n indent ;;
    ret (output ++ newline ++ listing ++ newline)
  else ret output.

(** [_QNodePP.__str__] and [_VNodePP.__str__] *)
Definition NodePP_str (self : NodePP) : result string :=
  single_node_str (pp_class_name (node self)) (node self)
    (parent_edge self) 1 (print_children self).

(* ------------------------------------------------------------------ *)
(** ** [_NodePP._print_tree_helper] *)

Inductive position : Type := first | middle | last.

Definition set_print_children (self : NodePP) (b : bool) : NodePP :=
  {| node := node self; parent_edge := parent_edge self; print_children := b |}.

(** [max_depth is not None and depth > max_depth] *)
Definition beyond (max_depth : option Z) (depth : Z) : bool :=
  match max_depth with
  | Some m => m <? depth
  | None => false
  end.

(** The branches drawn for the levels above the current root. *)
Definition preceding_branches (preceding_positions : list (option position))
  : string :=
  fold_left
    (fun branches pos =>
       match pos with
       | None => branches
       | Some first | Some middle => branches ++ "│    "
       | Some last => branches ++ "     "
       end)
    preceding_positions "".

Definition last_branch (last_position : option position) : string :=
  match last_position with
  | None => ""
  | Some first | Some middle => "├─── "
  | Some last => "└─── "
  end.

(** The position of the [i]-th of [n] children. *)
Definition next_pos (i n : Z) : position :=
  if i =? n - 1 then last
  else if i =? 0 then first
  else middle.

(** The text of the line printed for [root] (whose [print_children] is off). *)
Definition print_line (root : NodePP) (branch_positions : list (option position))
  (depth : Z) : result string :=
  let branches := preceding_branches (removelast branch_positions) in
  last_position <- list_getitem branch_positions (-1) ;;
  let branches := branches ++ last_branch last_position in
  s <- NodePP_str root ;;
  let line := branches ++ s in
  ret (if isinstance_VNode root
       then line ++ typ_cyan ("(depth=" ++ str_of_Z depth ++ ")")
       else line).

(** Returns the root proxy as the call leaves it and the lines printed.
    [root] is a proxy, never [None], so the second early return is not
    taken.  [root[c]] is a fresh proxy at each evaluation; the three
    evaluations in the loop body are equal and are bound once. *)
Fixpoint _print_tree_helper (fuel : nat) (root : NodePP) (parent_edge : label)
  (branch_positions : list (option position)) (depth : Z)
  (max_depth : option Z) (print_type : string)
  : result (NodePP * list string) :=
  match fuel with
  | O => raise RecursionError
  | S fuel' =>
      if beyond max_depth depth then ret (root, [])
      else
        let root := set_print_children root false in
        line <- print_line root branch_positions depth ;;
        lines <-
          for_each (enumerate (sorted_by_str (keys (children (node root)))))
            (fun lines ic =>
               let '(i, c) := ic in
               root_c <- getitem root c ;;
               if String.eqb print_type "complete"
                  || (1 <? num_visits (node root_c))
               then
                 let next_depth :=
                   if isinstance_QNode root_c then depth else depth + 1 in
                 let pos :=
                   next_pos i (Z.of_nat (List.length (children (node root)))) in
                 r <- _print_tree_helper fuel' root_c c
                        (branch_positions ++ [Some pos])%list next_depth
                        max_depth print_type ;;
                 ret (lines ++ snd r)%list
               else ret lines)
            [line] ;;
        ret (root, lines)
  end.

(** [_NodePP.print_tree] with its keyword options *)
Definition print_tree (self : NodePP) (max_depth : option Z) (print_type : string)
  : result (NodePP * list string) :=
  _print_tree_helper (S (height (node self))) self (PyStr "") [None] 0
    max_depth print_type.

(** [_NodePP.p(max_depth=None, print_type="summary")] *)
Definition NodePP_p (self : NodePP) (max_depth : option Z) (print_type : string)
  : result (NodePP * list string) :=
  print_tree self max_depth print_type.

(** [_NodePP.pp] *)
Definition NodePP_pp (self : NodePP) : result (NodePP * list string) :=
  print_tree self None "summary".

(* ------------------------------------------------------------------ *)
(** ** [TreeDebugger.tree_stats] *)

Record Stats : Type :=
  mkStats {
    total_vnodes : Z;
    total_qnodes : Z;
    total_vnodes_children : Z;
    total_qnodes_children : Z;
    max_vnodes_children : Z;
    max_qnodes_children : Z;
    max_depth : Z;
    stats_num_visits : option Z;   (* stats['num_visits'], set by tree_stats *)
    stats_value : option Q         (* stats['value'], set by tree_stats *)
  }.

Definition initial_stats : Stats :=
  {| total_vnodes := 0; total_qnodes := 0;
     total_vnodes_children := 0; total_qnodes_children := 0;
     max_vnodes_children := 0; max_qnodes_children := 0;
     max_depth := -1;
     stats_num_visits := None; stats_value := None |}.

(** The updates of [stats] made for one node. *)
Definition visit_stats (root : NodePP) (depth : Z) (stats : Stats) : Stats :=
  let n := Z.of_nat (List.length (children (node root))) in
  if isinstance_VNode root then
    {| total_vnodes := total_vnodes stats + 1;
       total_qnodes := total_qnodes stats;
       total_vnodes_children := total_vnodes_children stats + n;
       total_qnodes_children := total_qnodes_children stats;
       max_vnodes_children := Z.max (max_vnodes_children stats) n;
       max_qnodes_children := max_qnodes_children stats;
       max_depth := depth;
       stats_num_visits := stats_num_visits stats;
       stats_value := stats_value stats |}
  else
    {| total_vnodes := total_vnodes stats;
       total_qnodes := total_qnodes stats + 1;
       total_vnodes_children := total_vnodes_children stats;
       total_qnodes_children := total_qnodes_children stats + n;
       max_vnodes_children := max_vnodes_children stats;
       max_qnodes_children := Z.max (max_qnodes_children stats) n;
       max_depth := max_depth stats;
       stats_num_visits := stats_num_visits stats;
       stats_value := stats_value stats |}.

Fixpoint _tree_stats_helper (fuel : nat) (root : NodePP) (depth : Z)
  (stats : Stats) (max_depth : option Z) : result Stats :=
  match fuel with
  | O => raise RecursionError
  | S fuel' =>
      if beyond max_depth depth then ret stats
      else
        let stats := visit_stats root depth stats in
        for_each (keys (children (node root)))
          (fun stats c =>
             root_c <- getitem root c ;;
             _tree_stats_helper fuel' root_c (depth + 1) stats max_depth)
          stats
  end.

Definition tree_stats (root : NodePP) (max_depth : option Z) : result Stats :=
  stats <- _tree_stats_helper (S (height (node root))) root 0 initial_stats
             max_depth ;;
  let '(mkStats tv tq tvc tqc mvc mqc md _ _) := stats in
  ret (mkStats tv tq tvc tqc mvc mqc md
         (Some (num_visits (node root))) (Some (value (node root)))).

(* ------------------------------------------------------------------ *)
(** ** [TreeDebugger] *)

(** The debugger refers to its proxies by identity: [heap] gives the proxy
    object at each address, [tree] and [current] are addresses, and
    [_stats_cache] is keyed by [id(self.current)]. *)
Record TreeDebugger : Type :=
  mkTreeDebugger {
    heap : nat -> NodePP;
    tree : nat;
    current : nat;
    self_parent_edge : option label;
    _stats_cache : list (nat * Stats)
  }.

(** [TreeDebugger.__init__]: [self.current = self.tree] is the same object.
    The argument is a [TreeNode] by its type, so the [ValueError] of the
    [isinstance] check cannot be raised. *)
Definition TreeDebugger_init (tree : TreeNode) : TreeDebugger :=
  {| heap := fun _ => _node_pp tree None;
     tree := O;
     current := O;
     self_parent_edge := None;
     _stats_cache := [] |}.

(** [self.current] *)
Definition TreeDebugger_c (self : TreeDebugger) : NodePP :=
  heap self (current self).

(** [TreeDebugger.__str__] *)
Definition TreeDebugger_str (self : TreeDebugger) : result string :=
  NodePP_str (TreeDebugger_c self).

(** [TreeDebugger.__getitem__] *)
Definition TreeDebugger_getitem (self : TreeDebugger) (key : label)
  : result NodePP :=
  getitem (TreeDebugger_c self) key.

Fixpoint cache_get (cache : list (nat * Stats)) (id : nat) : option Stats :=
  match cache with
  | [] => None
  | (k, v) :: rest => if Nat.eqb id k then Some v else cache_get rest id
  end.

Definition set_stats_cache (self : TreeDebugger) (cache : list (nat * Stats))
  : TreeDebugger :=
  {| heap := heap self; tree := tree self; current := current self;
     self_parent_edge := self_parent_edge self; _stats_cache := cache |}.

(** Methods of the debugger return their outcome and the debugger after the
    call (an exception does not undo a cache update). *)
Definition _get_stats (self : TreeDebugger) : result Stats * TreeDebugger :=
  match cache_get (_stats_cache self) (current self) with
  | Some stats => (ret stats, self)
  | None =>
      match tree_stats (TreeDebugger_c self) None with
      | inr stats =>
          (ret stats,
           set_stats_cache self (_stats_cache self ++ [(current self, stats)]))
      | inl e => (raise e, self)
      end
  end.

(** [TreeDebugger.num_nodes(kind='all')] *)
Definition num_nodes (self : TreeDebugger) (kind : string)
  : result Z * TreeDebugger :=
  let (r, self) := _get_stats self in
  (stats <- r ;;
   if String.eqb kind "all" then ret (total_vnodes stats + total_qnodes stats)
   else if String.eqb kind "q" then ret (total_qnodes stats)
   else if String.eqb kind "v" then ret (total_vnodes stats)
   else raise (ValueError (InvalidKind kind)),
   self).

(** [TreeDebugger.depth] *)
Definition TreeDebugger_depth (self : TreeDebugger) : result Z * TreeDebugger :=
  let (r, self) := _get_stats self in
  (stats <- r ;; ret (max_depth stats), self).

Definition nn (self : TreeDebugger) := num_nodes self "all".
Definition nq (self : TreeDebugger) := num_nodes self "q".
Definition nv (self : TreeDebugger) := num_nodes self "v".

Fixpoint _layer_helper (fuel : nat) (root : NodePP)
  (current_depth target_depth : Z) (nodes : list NodePP)
  : result (list NodePP) :=
  match fuel with
  | O => raise RecursionError
  | S fuel' =>
      if current_depth =? target_depth then
        if isinstance_VNode root then ret (nodes ++ [root])%list
        else ret nodes
      else
        for_each (sorted_by_str (keys (children (node root))))
          (fun nodes c =>
             root_c <- getitem root c ;;
             let next_depth :=
               if isinstance_QNode root_c then current_depth
               else current_depth + 1 in
             _layer_helper fuel' root_c next_depth target_depth nodes)
          nodes
  end.

(** [TreeDebugger.layer(depth)]; [self.depth] is read for the test or for the
    message of the exception. *)
Definition layer (self : TreeDebugger) (depth_arg : Z)
  : result (list NodePP) * TreeDebugger :=
  let (r, self) := TreeDebugger_depth self in
  (self_depth <- r ;;
   if (depth_arg <? 0) || (self_depth <? depth_arg) then
     raise (ValueError (DepthOutOfRange depth_arg self_depth))
   else
     _layer_helper (S (height (node (TreeDebugger_c self)))) (TreeDebugger_c self) 0 depth_arg [],
   self).

(** [TreeDebugger.p]: prints the tree under [self.current]; the proxy object
    at [current] is the one whose [print_children] is switched off. *)
Definition TreeDebugger_p (self : TreeDebugger) (max_depth : option Z)
  (print_type : string) : result (list string) * TreeDebugger :=
  match NodePP_p (TreeDebugger_c self) max_depth print_type with
  | inr (root, lines) =>
      (ret lines,
       {| heap := fun a => if Nat.eqb a (current self) then root else heap self a;
          tree := tree self; current := current self;
          self_parent_edge := self_parent_edge self;
          _stats_cache := _stats_cache self |})
  | inl e => (raise e, self)
  end.

(** [TreeDebugger.pp]: prints the tree with the preset options. *)
Definition TreeDebugger_pp (self : TreeDebugger)
  : result (list string) * TreeDebugger :=
  match NodePP_pp (TreeDebugger_c self) with
  | inr (root, lines) =>
      (ret lines,
       {| heap := fun a => if Nat.eqb a (current self) then root else heap self a;
          tree := tree self; current := current self;
          self_parent_edge := self_parent_edge self;
          _stats_cache := _stats_cache self |})
  | inl e => (raise e, self)
  end.

(** [TreeDebugger.__repr__]: [single_node_str] with the parent edge of the
    debugger and the default [include_children=True]. *)
Definition TreeDebugger_repr (self : TreeDebugger) : result string :=
  nodestr <- single_node_str (pp_class_name (node (TreeDebugger_c self)))
               (node (TreeDebugger_c self)) (self_parent_edge self) 1 true ;;
  ret ("TreeDebugger@" ++ newline ++ nodestr)%string.

(** [TreeDebugger.root] (and [r]) *)
Definition TreeDebugger_root (self : TreeDebugger) : NodePP :=
  heap self (tree self).

(* ------------------------------------------------------------------ *)
(** ** [print_preferred_actions] *)

(** [float('-inf')] and the values of nodes. *)
Inductive pyfloat : Type := NegInf | Finite (q : Q).

(** [v > best_value] *)
Definition float_gt (v : Q) (best_value : pyfloat) : bool :=
  match best_value with
  | NegInf => true
  | Finite b => Qltb b v
  end.

(** [v == best_value] *)
Definition float_eq (v : Q) (best_value : pyfloat) : bool :=
  match best_value with
  | NegInf => false
  | Finite b => Qeq_bool v b
  end.

(** Modelled from the spec: the child lookup [TreeNode.__getitem__] of the
    planner's node class, which is not part of the sources: the child at an
    edge label of the children mapping, [None] when there is none (the helper
    tests the result against [None]). *)
Definition TreeNode_getitem (root : TreeNode) (key : label) : option TreeNode :=
  dict_get (children root) key.

(** [root[c].value] *)
Definition child_value (root : TreeNode) (c : label) : result Q :=
  match TreeNode_getitem root c with
  | Some child => ret (value child)
  | None => raise AttributeError
  end.

(** The first loop: [(best_child, best_value)]. *)
Definition best_loop (root : TreeNode) : result (option label * pyfloat) :=
  for_each (keys (children root))
    (fun best c =>
       v <- child_value root c ;;
       if float_gt v (snd best) then ret (Some c, Finite v) else ret best)
    (None, NegInf).

(** [c == best_child] *)
Definition is_best (c : label) (best_child : option label) : bool :=
  match best_child with
  | Some b => label_eqb c b
  | None => false
  end.

(** The second loop, under [if isinstance(root, VNode)]. *)
Definition equally_good_loop (root : TreeNode) (best_child : option label)
  (best_value : pyfloat) : result (list label) :=
  match cls root with
  | VNode =>
      for_each (keys (children root))
        (fun equally_good c =>
           v <- child_value root c ;;
           if negb (is_best c best_child) && float_eq v best_value
           then ret (equally_good ++ [c])%list
           else ret equally_good)
        []
  | QNode => ret []
  end.

(** A printed line ["  %s  %s" % (str(best_child), str(equally_good))], kept as
    the two values it shows. *)
Definition preferred_line : Type := (label * list label)%type.

Fixpoint _print_preferred_actions_helper (fuel : nat) (root : TreeNode)
  (depth : Z) (max_depth : option Z) : result (list preferred_line) :=
  match fuel with
  | O => raise RecursionError
  | S fuel' =>
      if match max_depth with Some m => m <=? depth | None => false end
      then ret []
      else
        best <- best_loop root ;;
        let '(best_child, best_value) := best in
        equally_good <- equally_good_loop root best_child best_value ;;
        match best_child with
        | Some b =>
            match TreeNode_getitem root b with
            | Some child =>
                let printed :=
                  match cls child with
                  | QNode => [(b, equally_good)]
                  | VNode => []
                  end in
                rest <- _print_preferred_actions_helper fuel' child (depth + 1)
                          max_depth ;;
                ret (printed ++ rest)%list
            | None => ret []
            end
        | None => ret []
        end
  end.

Definition print_preferred_actions (tree : TreeNode) (max_depth : option Z)
  : result (list preferred_line) :=
  _print_preferred_actions_helper (S (height tree)) tree 0 max_depth.

(* ------------------------------------------------------------------ *)
(** ** Paths, depths and visits: the vocabulary of the properties *)

(** The nodes entered along a path of edge labels, parent first. *)
Fixpoint walk (root : TreeNode) (path : list label) : option (list TreeNode) :=
  match path with
  | [] => Some []
  | c :: rest =>
      match dict_get (children root) c with
      | Some child => option_map (cons child) (walk child rest)
      | None => None
      end
  end.

Definition is_VNode (n : TreeNode) : bool :=
  match cls n with VNode => true | QNode => false end.

(** Depth as the traversals count it: one per decision node entered. *)
Definition count_decisions (ns : list TreeNode) : Z :=
  Z.of_nat (List.length (filter is_VNode ns)).

(** Depth as the number of moves from an action node to a decision node. *)
Fixpoint count_transitions (parent : TreeNode) (ns : list TreeNode) : Z :=
  match ns with
  | [] => 0
  | n :: rest =>
      (match cls parent, cls n with QNode, VNode => 1 | _, _ => 0 end)
      + count_transitions n rest
  end.

(** What [_layer_helper] appends: decision nodes found [target_depth -
    current_depth] decision levels below [root]. *)
Definition on_layer (root : TreeNode) (levels : Z) (n : NodePP) : Prop :=
  isinstance_VNode n = true
  /\ exists path ns,
      walk root path = Some ns
      /\ node n = List.last ns root
      /\ count_decisions ns = levels.

(** The invariant of the data model: kinds alternate along every edge. *)
Inductive alternates : TreeNode -> Prop :=
| alternates_intro : forall t,
    Forall (fun kv => cls (snd kv) <> cls t) (children t) ->
    Forall (fun kv => alternates (snd kv)) (children t) ->
    alternates t.

(** One call of [_print_tree_helper] that prints a line. *)
Record visit : Type :=
  mkVisit {
    visit_path : list label;            (* edges from the render root *)
    visit_root : NodePP;                (* the proxy printed *)
    visit_positions : list (option position);
    visit_depth : Z
  }.

(** The calls of [_print_tree_helper] that print a line, in order, each with
    the path that leads to it. *)
Fixpoint print_tree_visits (fuel : nat) (root : NodePP) (path : list label)
  (branch_positions : list (option position)) (depth : Z)
  (max_depth : option Z) (print_type : string) : list visit :=
  match fuel with
  | O => []
  | S fuel' =>
      if beyond max_depth depth then []
      else
        let root := set_print_children root false in
        mkVisit path root branch_positions depth ::
        flat_map
          (fun ic : Z * label =>
             let '(i, c) := ic in
             match getitem root c with
             | inr root_c =>
                 if String.eqb print_type "complete"
                    || (1 <? num_visits (node root_c))
                 then
                   print_tree_visits fuel' root_c (path ++ [c])%list
                     (branch_positions
                        ++ [Some (next_pos i (Z.of_nat
                                    (List.length (children (node root)))))])%list
                     (if isinstance_QNode root_c then depth else depth + 1)
                     max_depth print_type
                 else []
             | inl _ => []
             end)
          (enumerate (sorted_by_str (keys (children (node root)))))
  end.

(** The line printed at a visit. *)
Definition visit_line (v : visit) (line : string) : Prop :=
  print_line (visit_root v) (visit_positions v) (visit_depth v) = inr line.

(** The depth annotation of decision nodes. *)
Definition depth_annotation (root : NodePP) (depth : Z) : string :=
  if isinstance_VNode root
  then typ_cyan ("(depth=" ++ str_of_Z depth ++ ")")
  else "".

(** Ascending order of the string forms. *)
Definition str_le (a b : label) : Prop := String.leb (str a) (str b) = true.







(** The greatest depth of a decision node, the depth growing on the moves
    from an action node to a decision node; -1 when there is none.  This is
    the maximum depth as the renderer counts depth. *)
Fixpoint decision_max_depth (root : TreeNode) (depth : Z) : Z :=
  match root with
  | mkTreeNode k _ _ ch =>
      fold_right Z.max
        (match k with VNode => depth | QNode => -1 end)
        (map (fun kv =>
                decision_max_depth (snd kv)
                  (match k, cls (snd kv) with
                   | QNode, VNode => depth + 1
                   | _, _ => depth
                   end))
           ch)
  end.

(** The number of nodes of a class in a tree. *)
Fixpoint count_nodes (k : node_class) (root : TreeNode) : Z :=
  match root with
  | mkTreeNode k' _ _ ch =>
      (match k, k' with VNode, VNode | QNode, QNode => 1 | _, _ => 0 end)
      + fold_right Z.add 0 (map (fun kv => count_nodes k (snd kv)) ch)
  end.

(** A cached entry for the current proxy is the statistics of its tree. *)
Definition stats_cache_ok (self : TreeDebugger) : Prop :=
  forall stats,
    cache_get (_stats_cache self) (current self) = Some stats ->
    tree_stats (TreeDebugger_c self) None = inr stats.

(** The value of the child at an edge (0 when there is none). *)
Definition value_at (root : TreeNode) (c : label) : Q :=
  match dict_get (children root) c with
  | Some child => value child
  | None => 0%Q
  end.

(** The state of the first loop after the edges [done]: nothing selected yet,
    or the first edge of greatest value among them. *)
Definition first_greatest (root : TreeNode) (done : list label)
  (best : option label * pyfloat) : Prop :=
  match fst best with
  | None => done = [] /\ snd best = NegInf
  | Some b =>
      snd best = Finite (value_at root b)
      /\ exists before after,
          done = (before ++ b :: after)%list
          /\ Forall (fun c => (value_at root c < value_at root b)%Q) before
          /\ Forall (fun c => (value_at root c <= value_at root b)%Q) after
  end.

(** The edges other than the best one whose child has the best value. *)
Definition other_best (root : TreeNode) (best_child : option label)
  (best_value : pyfloat) : list label :=
  filter
    (fun c => negb (is_best c best_child)
              && float_eq (value_at root c) best_value)
    (keys (children root)).

(** The concatenation of a list of strings. *)
Definition str_concat (l : list string) : string :=
  fold_right String.append "" l.

(** One item of the listing of [single_node_str]: the child at [action],
    shown at index [i]; all items but the last end with a newline. *)
Definition listing_item (n : TreeNode) (indent : nat) (i : Z) (action : label)
  (child : TreeNode) : string :=
  (str_repeat "    " indent ++ "- [" ++ str_of_Z i ++ "] "
     ++ typ_white (str action) ++ ": "
     ++ node_header (class_name child) child None
     ++ (if (i <? Z.of_nat (List.length (children n)) - 1)%Z
         then newline else ""))%string.

(** The number of edges that leave the nodes of a class. *)
Fixpoint count_children (k : node_class) (root : TreeNode) : Z :=
  match root with
  | mkTreeNode k' _ _ ch =>
      (match k, k' with
       | VNode, VNode | QNode, QNode => Z.of_nat (List.length ch)
       | _, _ => 0
       end)
      + fold_right Z.add 0 (map (fun kv => count_children k (snd kv)) ch)
  end.

(** The proxy that a traversal builds for the node at the end of a path. *)
Definition proxy_at (root : NodePP) (path : list label) (ns : list TreeNode)
  : NodePP :=
  match path with
  | [] => root
  | _ => _node_pp (List.last ns (node root)) (Some (List.last path (PyStr "")))
  end.

(** A depth bound that allows at least as much as another. *)
Definition bound_le (md md' : option Z) : Prop :=
  match md, md' with
  | _, None => True
  | Some m, Some m' => m <= m'
  | None, Some _ => False
  end.

(** What a printed line of the preferred path says of the tree: its edge
    leads from a node of the tree to an action node, no edge of that node has
    a child of greater value, and the equally-good list holds other edges of
    the node whose child has the same value. *)
Definition preferred_line_ok (tree : TreeNode) (line : preferred_line) : Prop :=
  exists path ns child,
    walk tree path = Some ns
    /\ dict_get (children (List.last ns tree)) (fst line) = Some child
    /\ cls child = QNode
    /\ ~ In (fst line) (snd line)
    /\ Forall (fun c => (value_at (List.last ns tree) c
                         <= value_at (List.last ns tree) (fst line))%Q)
         (keys (children (List.last ns tree)))
    /\ Forall (fun c => In c (keys (children (List.last ns tree)))
                        /\ (value_at (List.last ns tree) c
                            == value_at (List.last ns tree) (fst line))%Q)
         (snd line).



(* ------------------------------------------------------------------ *)
(** ** Labels, dicts and sorting *)

Lemma label_eqb_eq (a b : label) : label_eqb a b = true <-> a = b.
Proof.
  destruct a, b; simpl; split; intros H; try discriminate; try congruence.
  - apply Z.eqb_eq in H. congruence.
  - apply Z.eqb_eq. congruence.
  - apply String.eqb_eq in H. congruence.
  - apply String.eqb_eq. congruence.
  - apply String.eqb_eq in H. congruence.
  - apply String.eqb_eq. congruence.
Qed.

Lemma label_eqb_refl (a : label) : label_eqb a a = true.
Proof. now apply label_eqb_eq. Qed.

Lemma label_eqb_neq (a b : label) : label_eqb a b = false <-> a <> b.
Proof.
  rewrite <- label_eqb_eq. destruct (label_eqb a b); split; congruence.
Qed.

Lemma dict_contains_In (key : label) (d : dict) :
  dict_contains key d = true <-> In key (keys d).
Proof.
  unfold dict_contains. rewrite existsb_exists. split.
  - intros [x [Hin Heq]]. apply label_eqb_eq in Heq. now subst.
  - intros Hin. exists key. split; [assumption | apply label_eqb_refl].
Qed.

Lemma dict_get_In_keys (d : dict) (key : label) :
  In key (keys d) -> exists v, dict_get d key = Some v.
Proof.
  induction d as [| [k v] d IH]; simpl; [tauto |].
  intros [Heq | Hin].
  - subst. rewrite label_eqb_refl. eauto.
  - destruct (label_eqb key k); eauto.
Qed.

Lemma dict_get_Some_In (d : dict) (key : label) (v : TreeNode) :
  dict_get d key = Some v -> In (key, v) d.
Proof.
  induction d as [| [k w] d IH]; simpl; [discriminate |].
  destruct (label_eqb key k) eqn:E.
  - apply label_eqb_eq in E. intros [= ->]. subst. now left.
  - intros H. right. now apply IH.
Qed.

Lemma dict_get_keys (d : dict) (key : label) (v : TreeNode) :
  dict_get d key = Some v -> In key (keys d).
Proof.
  intros H. apply dict_get_Some_In in H.
  unfold keys. apply in_map_iff. now exists (key, v).
Qed.

Lemma dict_get_NoDup (d : dict) (key : label) (v : TreeNode) :
  NoDup (keys d) -> In (key, v) d -> dict_get d key = Some v.
Proof.
  induction d as [| [k w] d IH]; simpl; [tauto |].
  intros Hnd [Heq | Hin].
  - injection Heq as -> ->. now rewrite label_eqb_refl.
  - inversion Hnd as [| ? ? Hnotin Hnd']; subst.
    destruct (label_eqb key k) eqn:E.
    + apply label_eqb_eq in E. subst. exfalso. apply Hnotin.
      unfold keys. apply in_map_iff. now exists (k, v).
    + now apply IH.
Qed.

Lemma height_child (t : TreeNode) (kv : label * TreeNode) :
  In kv (children t) -> (height (snd kv) < height t)%nat.
Proof.
  destruct t as [k n v ch]. simpl. intros Hin.
  assert (H : (height (snd kv)
               <= list_max (map (fun kv => height (snd kv)) ch))%nat).
  { pose proof (list_max_le (map (fun kv => height (snd kv)) ch)
                  (list_max (map (fun kv => height (snd kv)) ch))) as [Hle _].
    specialize (Hle (Nat.le_refl _)). rewrite Forall_forall in Hle.
    apply Hle. apply in_map_iff. now exists kv. }
  lia.
Qed.

Lemma height_dict_get (t child : TreeNode) (c : label) :
  dict_get (children t) c = Some child -> (height child < height t)%nat.
Proof.
  intros H. apply dict_get_Some_In in H.
  now apply (height_child t (c, child)).
Qed.

Lemma getitem_key (self : NodePP) (c : label) (child : TreeNode) :
  dict_get (children (node self)) c = Some child ->
  getitem self c = inr (_node_pp child (Some c)).
Proof.
  intros H. unfold getitem.
  assert (Hc : dict_contains c (children (node self)) = true).
  { apply dict_contains_In. eapply dict_get_keys; eauto. }
  rewrite Hc. unfold dict_getitem. now rewrite H.
Qed.

Lemma insert_by_str_perm (x : label) (l : list label) :
  Permutation (x :: l) (insert_by_str x l).
Proof.
  induction l as [| y ys IH]; simpl; [reflexivity |].
  destruct (String.leb (str x) (str y)); [reflexivity |].
  rewrite perm_swap. now apply perm_skip.
Qed.

Lemma sorted_by_str_perm (l : list label) : Permutation l (sorted_by_str l).
Proof.
  induction l as [| x xs IH]; simpl; [reflexivity |].
  rewrite <- insert_by_str_perm. now apply perm_skip.
Qed.

Lemma sorted_by_str_In (l : list label) (x : label) :
  In x (sorted_by_str l) <-> In x l.
Proof.
  split; apply Permutation_in;
    [symmetry |]; apply sorted_by_str_perm.
Qed.

Lemma sorted_by_str_length (l : list label) :
  List.length (sorted_by_str l) = List.length l.
Proof. symmetry. apply Permutation_length, sorted_by_str_perm. Qed.


Lemma insert_by_str_sorted (x : label) (l : list label) :
  Sorted str_le l -> Sorted str_le (insert_by_str x l).
Proof.
  induction l as [| y ys IH]; simpl; intros Hs.
  - repeat constructor.
  - destruct (String.leb (str x) (str y)) eqn:E.
    + constructor; [assumption | constructor; exact E].
    + inversion Hs as [| ? ? Hys Hhd]; subst.
      constructor; [now apply IH |].
      assert (Hyx : str_le y x).
      { destruct (String.leb_total (str x) (str y)) as [H | H];
          [congruence | exact H]. }
      destruct ys as [| z zs]; simpl.
      * constructor. exact Hyx.
      * destruct (String.leb (str x) (str z)); constructor;
          [exact Hyx | now inversion Hhd].
Qed.

Lemma sorted_by_str_sorted (l : list label) : Sorted str_le (sorted_by_str l).
Proof.
  induction l as [| x xs IH]; simpl; [constructor |].
  now apply insert_by_str_sorted.
Qed.

(** The sort is stable: labels with the same string form keep their order. *)
Lemma insert_by_str_stable (s : string) (x : label) (l : list label) :
  filter (fun y => String.eqb (str y) s) (insert_by_str x l)
  = filter (fun y => String.eqb (str y) s) (x :: l).
Proof.
  induction l as [| y ys IH]; simpl; [reflexivity |].
  destruct (String.leb (str x) (str y)) eqn:E; [reflexivity |].
  simpl. rewrite IH. simpl.
  destruct (String.eqb (str x) s) eqn:Ex; [| reflexivity].
  destruct (String.eqb (str y) s) eqn:Ey; [| reflexivity].
  apply String.eqb_eq in Ex, Ey. exfalso.
  rewrite Ex, Ey in E.
  destruct (String.leb_total s s) as [H | H]; congruence.
Qed.

Lemma sorted_by_str_stable (s : string) (l : list label) :
  filter (fun y => String.eqb (str y) s) (sorted_by_str l)
  = filter (fun y => String.eqb (str y) s) l.
Proof.
  induction l as [| x xs IH]; simpl; [reflexivity |].
  rewrite insert_by_str_stable. simpl. now rewrite IH.
Qed.

(* ------------------------------------------------------------------ *)
(** ** Child lookup: [_NodePP.__getitem__] *)

Lemma list_getitem_nonneg {A} (l : list A) (k : Z) :
  0 <= k < Z.of_nat (List.length l) ->
  exists x, nth_error l (Z.to_nat k) = Some x /\ list_getitem l k = inr x.
Proof.
  intros Hk. unfold list_getitem.
  assert (Hlt : (Z.to_nat k < List.length l)%nat) by lia.
  apply nth_error_Some in Hlt.
  destruct (nth_error l (Z.to_nat k)) as [x |] eqn:E; [| congruence].
  exists x. split; [reflexivity |].
  replace (0 <=? k) with true by (symmetry; apply Z.leb_le; lia).
  replace (k <? Z.of_nat (List.length l)) with true
    by (symmetry; apply Z.ltb_lt; lia).
  reflexivity.
Qed.

Lemma list_getitem_negative {A} (l : list A) (k : Z) :
  - Z.of_nat (List.length l) <= k < 0 ->
  exists x, nth_error l (Z.to_nat (Z.of_nat (List.length l) + k)) = Some x
            /\ list_getitem l k = inr x.
Proof.
  intros Hk. unfold list_getitem.
  assert (Hlt : (Z.to_nat (Z.of_nat (List.length l) + k) < List.length l)%nat)
    by lia.
  apply nth_error_Some in Hlt.
  destruct (nth_error l (Z.to_nat (Z.of_nat (List.length l) + k)))
    as [x |] eqn:E; [| congruence].
  exists x. split; [reflexivity |].
  replace (0 <=? k) with false by (symmetry; apply Z.leb_gt; lia).
  replace (- Z.of_nat (List.length l) <=? k) with true
    by (symmetry; apply Z.leb_le; lia).
  replace (k <? 0) with true by (symmetry; apply Z.ltb_lt; lia).
  reflexivity.
Qed.

Lemma list_getitem_outside {A} (l : list A) (k : Z) :
  k < - Z.of_nat (List.length l) \/ Z.of_nat (List.length l) <= k ->
  list_getitem l k = inl IndexError.
Proof.
  intros Hk. unfold list_getitem.
  destruct Hk as [Hk | Hk].
  - replace (0 <=? k) with false by (symmetry; apply Z.leb_gt; lia).
    replace (- Z.of_nat (List.length l) <=? k) with false
      by (symmetry; apply Z.leb_gt; lia).
    reflexivity.
  - replace (k <? Z.of_nat (List.length l)) with false
      by (symmetry; apply Z.ltb_ge; lia).
    replace (k <? 0) with false by (symmetry; apply Z.ltb_ge; lia).
    rewrite !andb_false_r. reflexivity.
Qed.

Lemma keys_length (d : dict) : List.length (keys d) = List.length d.
Proof. apply length_map. Qed.

(** The edge found at a position of the sorted edges leads to a proxy. *)
Lemma getitem_edge_at (self : NodePP) (k : Z) (e : label) :
  dict_contains (PyInt k) (children (node self)) = false ->
  list_getitem (sorted_by_str (keys (children (node self)))) k = inr e ->
  In e (sorted_by_str (keys (children (node self)))) ->
  exists child,
    dict_get (children (node self)) e = Some child
    /\ getitem self (PyInt k) = inr (_node_pp child (Some e)).
Proof.
  intros Hnot Hget Hin.
  apply (proj1 (sorted_by_str_In _ _)) in Hin.
  destruct (dict_get_In_keys _ _ Hin) as [child Hchild].
  exists child. split; [assumption |].
  unfold getitem. rewrite Hnot, Hget. simpl.
  unfold dict_getitem. now rewrite Hchild.
Qed.

(** C4 (as amended): for an integer key [k] that is not an edge label, the
    lookup raises [IndexError] exactly when [k] is outside
    [[-len(children), len(children))]; for [0 <= k < len(children)] it returns
    the proxy of the child at position [k] of the edge labels sorted ascending
    by their string form, with that label as parent edge; for
    [-len(children) <= k < 0] it returns the one at position
    [len(children) + k], as Python list indexing does. *)
Theorem getitem_int_index (self : NodePP) (k : Z) :
  dict_contains (PyInt k) (children (node self)) = false ->
  let d := children (node self) in
  let edges := sorted_by_str (keys d) in
  let n := Z.of_nat (List.length d) in
  Sorted str_le edges
  /\ Permutation (keys d) edges
  /\ (getitem self (PyInt k) = inl IndexError <-> k < - n \/ n <= k)
  /\ (0 <= k < n ->
      exists e child,
        nth_error edges (Z.to_nat k) = Some e
        /\ dict_get d e = Some child
        /\ getitem self (PyInt k) = inr (_node_pp child (Some e)))
  /\ (- n <= k < 0 ->
      exists e child,
        nth_error edges (Z.to_nat (n + k)) = Some e
        /\ dict_get d e = Some child
        /\ getitem self (PyInt k) = inr (_node_pp child (Some e))).
Proof.
  intros Hnot d edges n.
  assert (Hlen : Z.of_nat (List.length edges) = n).
  { unfold edges, n. now rewrite sorted_by_str_length, keys_length. }
  assert (Hin : 0 <= k < n ->
      exists e child,
        nth_error edges (Z.to_nat k) = Some e
        /\ dict_get d e = Some child
        /\ getitem self (PyInt k) = inr (_node_pp child (Some e))).
  { intros Hk. destruct (list_getitem_nonneg edges k) as [e [Hnth Hget]];
      [lia |].
    destruct (getitem_edge_at self k e Hnot Hget) as [child [Hc Hg]];
      [eapply nth_error_In; eauto |].
    exists e, child. auto. }
  assert (Hneg : - n <= k < 0 ->
      exists e child,
        nth_error edges (Z.to_nat (n + k)) = Some e
        /\ dict_get d e = Some child
        /\ getitem self (PyInt k) = inr (_node_pp child (Some e))).
  { intros Hk. destruct (list_getitem_negative edges k) as [e [Hnth Hget]];
      [lia |].
    rewrite Hlen in Hnth.
    destruct (getitem_edge_at self k e Hnot Hget) as [child [Hc Hg]];
      [eapply nth_error_In; eauto |].
    exists e, child. auto. }
  split; [apply sorted_by_str_sorted |].
  split; [apply sorted_by_str_perm |].
  split; [| split; assumption].
  split.
  - intros Herr.
    destruct (Z_lt_ge_dec k (- n)) as [? | Hge]; [now left |].
    destruct (Z_lt_ge_dec k n) as [Hlt | ?]; [| right; lia].
    exfalso.
    destruct (Z_lt_ge_dec k 0) as [Hk0 | Hk0].
    + destruct Hneg as [e [child [_ [_ Hg]]]]; [lia | congruence].
    + destruct Hin as [e [child [_ [_ Hg]]]]; [lia | congruence].
  - intros Hout. unfold getitem. rewrite Hnot.
    rewrite list_getitem_outside; [reflexivity |].
    unfold edges, n, d in *. lia.
Qed.

Lemma py_max_fold {A} (f : A -> Q) (xs : list A) (x : A) :
  let r := fold_left (fun best y => if Qltb (f best) (f y) then y else best) xs x in
  In r (x :: xs) /\ (f x <= f r)%Q /\ Forall (fun y => (f y <= f r)%Q) xs.
Proof.
  revert x. induction xs as [| y ys IH]; intros x; simpl.
  - split; [now left |]. split; [apply Qle_refl | constructor].
  - destruct (Qltb (f x) (f y)) eqn:E.
    + destruct (IH y) as [Hin [Hle Hall]]. simpl in Hin.
      split; [tauto |].
      assert (Hxy : (f x <= f y)%Q).
      { unfold Qltb in E. apply negb_true_iff in E.
        apply Qlt_le_weak, Qnot_le_lt. intros H.
        apply Qle_bool_iff in H. congruence. }
      split; [eapply Qle_trans; eauto |].
      constructor; assumption.
    + destruct (IH x) as [Hin [Hle Hall]]. simpl in Hin.
      split; [tauto |]. split; [assumption |].
      constructor; [| assumption].
      unfold Qltb in E. apply negb_false_iff in E.
      apply Qle_bool_iff in E. eapply Qle_trans; eauto.
Qed.

(** On a node with children, a string key that is no edge label selects an
    edge of greatest similarity and is accepted at the threshold. *)
Lemma getitem_str_similar (self : NodePP) (s : string) :
  children (node self) <> [] ->
  dict_contains (PyStr s) (children (node self)) = false ->
  exists chosen child,
    In chosen (keys (children (node self)))
    /\ Forall (fun e => (similar (str e) s <= similar (str chosen) s)%Q)
         (keys (children (node self)))
    /\ dict_get (children (node self)) chosen = Some child
    /\ getitem self (PyStr s)
       = if Qle_bool SIMILAR_THRESH (similar (str chosen) s)
         then inr (_node_pp child (Some chosen))
         else inl (ValueError (CannotAccessChildren (PyStr s))).
Proof.
  intros Hne Hnot. unfold getitem. rewrite Hnot.
  destruct (keys (children (node self))) as [| x xs] eqn:Ek.
  { destruct (children (node self)); [congruence | discriminate]. }
  simpl.
  pose proof (py_max_fold (fun edge => similar (str edge) s) xs x)
    as [Hin [Hle Hall]].
  set (chosen := fold_left _ xs x) in *.
  assert (Hk : In chosen (keys (children (node self)))) by now rewrite Ek.
  destruct (dict_get_In_keys _ _ Hk) as [child Hchild].
  exists chosen, child. rewrite <- Ek.
  split; [assumption |]. split; [rewrite Ek; now constructor |].
  split; [assumption |].
  destruct (Qle_bool SIMILAR_THRESH (similar (str chosen) s)); [| reflexivity].
  simpl. unfold dict_getitem. now rewrite Hchild.
Qed.

(* ------------------------------------------------------------------ *)
(** ** Loops *)

Lemma for_each_app {A B} (l1 l2 : list A) (body : B -> A -> result B) (acc : B) :
  for_each (l1 ++ l2) body acc
  = bind (for_each l1 body acc) (for_each l2 body).
Proof.
  revert acc. induction l1 as [| x xs IH]; intros acc; simpl; [reflexivity |].
  destruct (body acc x); simpl; [reflexivity | apply IH].
Qed.

(** A loop whose every step succeeds and extends a preorder succeeds. *)
Lemma for_each_invariant {A B} (l : list A) (body : B -> A -> result B)
  (R : B -> B -> Prop) :
  (forall acc, R acc acc) ->
  (forall a b d, R a b -> R b d -> R a d) ->
  (forall acc x, In x l -> exists acc', body acc x = inr acc' /\ R acc acc') ->
  forall acc, exists acc', for_each l body acc = inr acc' /\ R acc acc'.
Proof.
  intros Hrefl Htrans. induction l as [| x xs IH]; intros Hstep acc; simpl.
  - exists acc. auto.
  - destruct (Hstep acc x) as [acc1 [E1 R1]]; [now left |].
    rewrite E1. simpl.
    destruct (IH (fun a y Hy => Hstep a y (or_intror Hy)) acc1)
      as [acc2 [E2 R2]].
    exists acc2. eauto.
Qed.

(** A loop whose steps add [w x] to a measure adds their sum. *)
Lemma for_each_sum {A B} (l : list A) (body : B -> A -> result B)
  (m : B -> Z) (w : A -> Z) :
  (forall acc x, In x l ->
     exists acc', body acc x = inr acc' /\ m acc' = m acc + w x) ->
  forall acc,
    exists acc', for_each l body acc = inr acc'
                 /\ m acc' = m acc + fold_right Z.add 0 (map w l).
Proof.
  induction l as [| x xs IH]; intros Hstep acc; simpl.
  - exists acc. split; [reflexivity | lia].
  - destruct (Hstep acc x) as [acc1 [E1 M1]]; [now left |].
    rewrite E1. simpl.
    destruct (IH (fun a y Hy => Hstep a y (or_intror Hy)) acc1)
      as [acc2 [E2 M2]].
    exists acc2. split; [assumption | lia].
Qed.

(* ------------------------------------------------------------------ *)
(** ** Statistics: [tree_stats] *)

Lemma last_cons {A} (l : list A) (x d : A) :
  List.last (x :: l) d = List.last l x.
Proof.
  revert x d. induction l as [| y ys IH]; intros x d; [reflexivity |].
  change (List.last (x :: y :: ys) d) with (List.last (y :: ys) d).
  now rewrite !IH.
Qed.

Lemma walk_cons (root child : TreeNode) (c : label) (path : list label)
  (ns : list TreeNode) :
  dict_get (children root) c = Some child ->
  walk child path = Some ns ->
  walk root (c :: path) = Some (child :: ns).
Proof. intros Hc Hw. simpl. now rewrite Hc, Hw. Qed.

Lemma dict_ok_inv (t : TreeNode) :
  dict_ok t ->
  NoDup (keys (children t))
  /\ forall c child, dict_get (children t) c = Some child -> dict_ok child.
Proof.
  intros H. inversion H as [t' Hnd Hall]; subst. split; [assumption |].
  intros c child Hget. apply dict_get_Some_In in Hget.
  rewrite Forall_forall in Hall. apply (Hall (c, child) Hget).
Qed.

(** Without a decision node in reach, the traversal keeps [max_depth]. *)
Lemma tree_stats_helper_keeps_depth (md : option Z) (fuel : nat) :
  forall (root : NodePP) (depth : Z) (stats : Stats),
    (height (node root) < fuel)%nat ->
    (forall path ns,
        walk (node root) path = Some ns ->
        beyond md (depth + Z.of_nat (List.length path)) = false ->
        is_VNode (List.last ns (node root)) = false) ->
    exists stats',
      _tree_stats_helper fuel root depth stats md = inr stats'
      /\ max_depth stats' = max_depth stats.
Proof.
  induction fuel as [| fuel' IH]; intros root depth stats Hh Hno; [lia |].
  simpl. destruct (beyond md depth) eqn:Eb.
  - exists stats. auto.
  - assert (Hq : isinstance_VNode root = false).
    { apply (Hno [] []); [reflexivity |].
      simpl. now rewrite Z.add_0_r. }
    destruct (for_each_invariant (keys (children (node root)))
                (fun stats c =>
                   root_c <- getitem root c ;;
                   _tree_stats_helper fuel' root_c (depth + 1) stats md)
                (fun a b => max_depth b = max_depth a))
      with (acc := visit_stats root depth stats) as [stats' [E M]].
    + reflexivity.
    + intros a b d Hab Hbd. congruence.
    + intros acc c Hin.
      destruct (dict_get_In_keys _ _ Hin) as [child Hchild].
      rewrite (getitem_key _ _ _ Hchild). simpl.
      apply IH.
      * simpl. apply height_dict_get in Hchild. lia.
      * intros path ns Hw Hb. simpl in *.
        rewrite <- (last_cons ns child (node root)).
        apply (Hno (c :: path)); [now apply walk_cons |].
        simpl List.length. rewrite <- Hb. f_equal. lia.
    + exists stats'. split; [assumption |].
      rewrite M. unfold visit_stats. now rewrite Hq.
Qed.

Lemma tree_stats_helper_total (md : option Z) (fuel : nat) :
  forall (root : NodePP) (depth : Z) (stats : Stats),
    (height (node root) < fuel)%nat ->
    exists stats', _tree_stats_helper fuel root depth stats md = inr stats'.
Proof.
  induction fuel as [| fuel' IH]; intros root depth stats Hh; [lia |].
  simpl. destruct (beyond md depth); [eauto |].
  destruct (for_each_invariant (keys (children (node root)))
              (fun stats c =>
                 root_c <- getitem root c ;;
                 _tree_stats_helper fuel' root_c (depth + 1) stats md)
              (fun _ _ => True))
    with (acc := visit_stats root depth stats) as [stats' [E _]]; auto.
  - intros acc c Hin.
    destruct (dict_get_In_keys _ _ Hin) as [child Hchild].
    rewrite (getitem_key _ _ _ Hchild). simpl.
    destruct (IH (_node_pp child (Some c)) (depth + 1) acc) as [s' Hs'].
    + simpl. apply height_dict_get in Hchild. lia.
    + eauto.
  - eauto.
Qed.

Lemma count_nodes_unfold (k : node_class) (t : TreeNode) :
  count_nodes k t
  = (match k, cls t with VNode, VNode | QNode, QNode => 1 | _, _ => 0 end)
    + fold_right Z.add 0 (map (fun kv => count_nodes k (snd kv)) (children t)).
Proof. destruct t. reflexivity. Qed.

Lemma map_keys_NoDup {B} (d : dict) (g : TreeNode -> B) (default : B) :
  NoDup (keys d) ->
  map (fun c => match dict_get d c with Some ch => g ch | None => default end)
      (keys d)
  = map (fun kv => g (snd kv)) d.
Proof.
  intros Hnd. unfold keys. rewrite map_map. apply map_ext_in.
  intros [k v] Hin. simpl. now rewrite (dict_get_NoDup d k v Hnd Hin).
Qed.

(** The unbounded traversal counts the nodes of each class. *)
Lemma tree_stats_helper_counts (fuel : nat) :
  forall (root : NodePP) (depth : Z) (stats : Stats),
    (height (node root) < fuel)%nat ->
    dict_ok (node root) ->
    exists stats',
      _tree_stats_helper fuel root depth stats None = inr stats'
      /\ total_vnodes stats' = total_vnodes stats + count_nodes VNode (node root)
      /\ total_qnodes stats' = total_qnodes stats + count_nodes QNode (node root).
Proof.
  induction fuel as [| fuel' IH]; intros root depth stats Hh Hok; [lia |].
  simpl. destruct (dict_ok_inv _ Hok) as [Hnd Hsub].
  set (body := fun stats c =>
                 root_c <- getitem root c ;;
                 _tree_stats_helper fuel' root_c (depth + 1) stats None).
  assert (Hstep : forall acc c, In c (keys (children (node root))) ->
            exists child acc',
              dict_get (children (node root)) c = Some child
              /\ body acc c = inr acc'
              /\ total_vnodes acc' = total_vnodes acc + count_nodes VNode child
              /\ total_qnodes acc' = total_qnodes acc + count_nodes QNode child).
  { intros acc c Hin.
    destruct (dict_get_In_keys _ _ Hin) as [child Hchild].
    destruct (IH (_node_pp child (Some c)) (depth + 1) acc)
      as [acc' [E [Hv Hq]]].
    - simpl. apply height_dict_get in Hchild. lia.
    - simpl. eauto.
    - exists child, acc'. unfold body.
      rewrite (getitem_key _ _ _ Hchild). simpl. auto. }
  destruct (for_each_sum (keys (children (node root))) body total_vnodes
              (fun c => match dict_get (children (node root)) c with
                        | Some ch => count_nodes VNode ch
                        | None => 0
                        end))
    with (acc := visit_stats root depth stats) as [sv [Ev Mv]].
  { intros acc c Hin.
    destruct (Hstep acc c Hin) as [child [acc' [Hc [E [Hv _]]]]].
    exists acc'. now rewrite Hc. }
  destruct (for_each_sum (keys (children (node root))) body total_qnodes
              (fun c => match dict_get (children (node root)) c with
                        | Some ch => count_nodes QNode ch
                        | None => 0
                        end))
    with (acc := visit_stats root depth stats) as [sq [Eq Mq]].
  { intros acc c Hin.
    destruct (Hstep acc c Hin) as [child [acc' [Hc [E [_ Hq]]]]].
    exists acc'. now rewrite Hc. }
  assert (sq = sv) by congruence. subst sq.
  exists sv. split; [assumption |].
  rewrite Mv, Mq, !map_keys_NoDup by assumption.
  rewrite (count_nodes_unfold VNode), (count_nodes_unfold QNode).
  unfold visit_stats, isinstance_VNode.
  destruct (cls (node root)); simpl total_vnodes; simpl total_qnodes;
    split; lia.
Qed.

Lemma tree_stats_total (root : NodePP) (md : option Z) :
  exists stats, tree_stats root md = inr stats.
Proof.
  unfold tree_stats.
  destruct (tree_stats_helper_total md (S (height (node root))) root 0
              initial_stats) as [s Hs]; [lia |].
  rewrite Hs. simpl. destruct s. eauto.
Qed.

(* ------------------------------------------------------------------ *)
(** ** The cache of the debugger *)

Lemma cache_get_app (cache : list (nat * Stats)) (id : nat) (stats : Stats) :
  cache_get cache id = None ->
  cache_get (cache ++ [(id, stats)]) id = Some stats.
Proof.
  induction cache as [| [k v] rest IH]; simpl.
  - now rewrite Nat.eqb_refl.
  - destruct (Nat.eqb id k); [discriminate | exact IH].
Qed.

Lemma get_stats_spec (self : TreeDebugger) :
  exists stats self',
    _get_stats self = (inr stats, self')
    /\ heap self' = heap self
    /\ current self' = current self
    /\ cache_get (_stats_cache self') (current self') = Some stats
    /\ (stats_cache_ok self -> tree_stats (TreeDebugger_c self) None = inr stats).
Proof.
  unfold _get_stats.
  destruct (cache_get (_stats_cache self) (current self)) as [stats |] eqn:E.
  - exists stats, self. repeat split; auto.
  - destruct (tree_stats_total (TreeDebugger_c self) None) as [stats Hs].
    rewrite Hs. eexists; eexists. split; [reflexivity |].
    simpl. repeat split; auto. now apply cache_get_app.
Qed.

(** A second read of the statistics is served from the cache. *)
Lemma get_stats_again (self self' : TreeDebugger) (stats : Stats) :
  _get_stats self = (inr stats, self') ->
  _get_stats self' = (inr stats, self').
Proof.
  intros H.
  destruct (get_stats_spec self) as [s [t [E [_ [_ [Hc _]]]]]].
  rewrite E in H. injection H as -> ->.
  unfold _get_stats. now rewrite Hc.
Qed.

Lemma depth_spec (self : TreeDebugger) :
  exists stats self',
    _get_stats self = (inr stats, self')
    /\ TreeDebugger_depth self = (inr (max_depth stats), self')
    /\ TreeDebugger_c self' = TreeDebugger_c self.
Proof.
  destruct (get_stats_spec self) as [stats [self' [E [Hh [Hc _]]]]].
  exists stats, self'. split; [assumption |].
  unfold TreeDebugger_depth. rewrite E. split; [reflexivity |].
  unfold TreeDebugger_c. now rewrite Hh, Hc.
Qed.

(* ------------------------------------------------------------------ *)
(** ** Layers *)

Lemma count_decisions_cons (n : TreeNode) (ns : list TreeNode) :
  count_decisions (n :: ns)
  = (if is_VNode n then 1 else 0) + count_decisions ns.
Proof.
  unfold count_decisions. simpl. destruct (is_VNode n); simpl List.length; lia.
Qed.

Lemma alternates_inv (t : TreeNode) (c : label) (child : TreeNode) :
  alternates t ->
  dict_get (children t) c = Some child ->
  cls child <> cls t /\ alternates child.
Proof.
  intros H Hget. inversion H as [t' Hne Hall]; subst.
  apply dict_get_Some_In in Hget. rewrite Forall_forall in Hne, Hall.
  split; [apply (Hne (c, child) Hget) | apply (Hall (c, child) Hget)].
Qed.

(** In an alternating tree the two ways of counting depth agree. *)
Lemma count_transitions_alternates (path : list label) :
  forall (root : TreeNode) (ns : list TreeNode),
    alternates root ->
    walk root path = Some ns ->
    count_transitions root ns = count_decisions ns.
Proof.
  induction path as [| c rest IH]; intros root ns Halt Hw; simpl in Hw.
  - injection Hw as <-. reflexivity.
  - destruct (dict_get (children root) c) as [child |] eqn:Ec; [| discriminate].
    destruct (walk child rest) as [ns' |] eqn:Ew; [| discriminate].
    injection Hw as <-.
    destruct (alternates_inv _ _ _ Halt Ec) as [Hne Hchild].
    rewrite count_decisions_cons. simpl.
    rewrite (IH child ns' Hchild Ew).
    unfold is_VNode. destruct (cls root), (cls child); congruence.
Qed.

Lemma layer_helper_spec (target_depth : Z) (fuel : nat) :
  forall (root : NodePP) (current_depth : Z) (nodes : list NodePP),
    (height (node root) < fuel)%nat ->
    exists found,
      _layer_helper fuel root current_depth target_depth nodes
      = inr (nodes ++ found)%list
      /\ Forall (on_layer (node root) (target_depth - current_depth)) found.
Proof.
  induction fuel as [| fuel' IH]; intros root current_depth nodes Hh; [lia |].
  simpl. destruct (current_depth =? target_depth) eqn:Ed.
  - apply Z.eqb_eq in Ed. subst.
    destruct (isinstance_VNode root) eqn:Ev.
    + exists [root]. split; [reflexivity |].
      constructor; [| constructor].
      split; [assumption |]. exists [], []. simpl.
      repeat split. unfold count_decisions. simpl. lia.
    + exists []. rewrite app_nil_r. split; [reflexivity | constructor].
  - destruct (for_each_invariant
                (sorted_by_str (keys (children (node root))))
                (fun nodes c =>
                   root_c <- getitem root c ;;
                   let next_depth :=
                     if isinstance_QNode root_c then current_depth
                     else current_depth + 1 in
                   _layer_helper fuel' root_c next_depth target_depth nodes)
                (fun a b =>
                   exists found,
                     b = (a ++ found)%list
                     /\ Forall (on_layer (node root)
                                  (target_depth - current_depth)) found))
      with (acc := nodes) as [nodes' [E [found [Hf Hall]]]].
    + intros acc. exists []. now rewrite app_nil_r.
    + intros a b d [f1 [-> H1]] [f2 [-> H2]].
      exists (f1 ++ f2)%list. rewrite app_assoc. split; [reflexivity |].
      apply Forall_app. auto.
    + intros acc c Hin.
      apply (proj1 (sorted_by_str_In _ _)) in Hin.
      destruct (dict_get_In_keys _ _ Hin) as [child Hchild].
      rewrite (getitem_key _ _ _ Hchild). simpl.
      match goal with
      | |- context [_layer_helper fuel' ?r ?d target_depth acc] =>
          destruct (IH r d acc) as [found [E Hall]]
      end.
      { simpl. apply height_dict_get in Hchild. lia. }
      eexists. split; [exact E |]. exists found. split; [reflexivity |].
      eapply Forall_impl; [| exact Hall].
      intros n [Hv [path [ns [Hw [Hn Hc]]]]]. simpl in *.
      split; [assumption |].
      exists (c :: path), (child :: ns).
      split; [now apply walk_cons |].
      split; [now rewrite last_cons |].
      rewrite count_decisions_cons, Hc.
      unfold isinstance_QNode, is_VNode. simpl.
      destruct (cls child); lia.
    + subst nodes'. exists found. auto.
Qed.

(** C3: [layer(d)] raises the out-of-range [ValueError] exactly when [d < 0]
    or [d] exceeds the cached maximum depth of the current node; otherwise it
    returns a list of proxies that are all decision nodes, each reached from
    the current node by a path that enters exactly [d] decision nodes, which
    in a tree whose kinds alternate is a path with exactly [d] moves from an
    action node to a decision node. *)
Theorem layer_spec (self : TreeDebugger) (d : Z) :
  exists m,
    fst (TreeDebugger_depth self) = inr m
    /\ (fst (layer self d) = inl (ValueError (DepthOutOfRange d m))
        <-> d < 0 \/ m < d)
    /\ (~ (d < 0 \/ m < d) ->
        exists nodes,
          fst (layer self d) = inr nodes
          /\ Forall
               (fun n =>
                  isinstance_VNode n = true
                  /\ exists path ns,
                      walk (node (TreeDebugger_c self)) path = Some ns
                      /\ node n = List.last ns (node (TreeDebugger_c self))
                      /\ count_decisions ns = d
                      /\ (alternates (node (TreeDebugger_c self)) ->
                          count_transitions (node (TreeDebugger_c self)) ns = d))
               nodes).
Proof.
  destruct (depth_spec self) as [stats [self' [_ [Hd Hc]]]].
  exists (max_depth stats). rewrite Hd. split; [reflexivity |].
  assert (Hin : ~ (d < 0 \/ max_depth stats < d) ->
          exists nodes,
            fst (layer self d) = inr nodes
            /\ Forall (on_layer (node (TreeDebugger_c self)) d) nodes).
  { intros Hrange. unfold layer. rewrite Hd. unfold bind. cbn [fst].
    replace (d <? 0) with false by (symmetry; apply Z.ltb_ge; lia).
    replace (max_depth stats <? d) with false by (symmetry; apply Z.ltb_ge; lia).
    cbn [orb]. rewrite Hc.
    destruct (layer_helper_spec d (S (height (node (TreeDebugger_c self))))
                (TreeDebugger_c self) 0 []) as [found [E Hall]]; [lia |].
    exists found. rewrite E. split; [reflexivity |].
    now rewrite Z.sub_0_r in Hall. }
  split.
  - split.
    + intros Herr.
      destruct (Z_lt_ge_dec d 0) as [? | Hd0]; [now left |].
      destruct (Z_lt_ge_dec (max_depth stats) d) as [? | Hdm]; [now right |].
      destruct Hin as [nodes [E _]]; [lia | congruence].
    + intros Hout. unfold layer. rewrite Hd. simpl.
      destruct Hout as [Hout | Hout].
      * replace (d <? 0) with true by (symmetry; apply Z.ltb_lt; lia).
        reflexivity.
      * replace (max_depth stats <? d) with true
          by (symmetry; apply Z.ltb_lt; lia).
        rewrite orb_true_r. reflexivity.
  - intros Hrange. destruct (Hin Hrange) as [nodes [E Hall]].
    exists nodes. split; [assumption |].
    eapply Forall_impl; [| exact Hall].
    intros n [Hv [path [ns [Hw [Hn Hcount]]]]].
    split; [assumption |]. exists path, ns.
    repeat split; try assumption.
    intros Halt.
    now rewrite (count_transitions_alternates path _ _ Halt Hw).
Qed.

(** C8: from any debugger, [num_nodes('all')] followed by [num_nodes('v')]
    and [num_nodes('q')] returns three counts with all = v + q; a [kind] other
    than 'all', 'q' and 'v' raises the invalid-kind [ValueError]; and when the
    cache is coherent and the dicts of the current tree are well formed, the
    two counts are the numbers of decision and of action nodes of the tree
    under the current node. *)
Theorem num_nodes_all_is_sum (self : TreeDebugger) :
  (exists a v q self1 self2 self3,
      num_nodes self "all" = (inr a, self1)
      /\ num_nodes self1 "v" = (inr v, self2)
      /\ num_nodes self2 "q" = (inr q, self3)
      /\ a = v + q
      /\ (stats_cache_ok self ->
          dict_ok (node (TreeDebugger_c self)) ->
          v = count_nodes VNode (node (TreeDebugger_c self))
          /\ q = count_nodes QNode (node (TreeDebugger_c self))))
  /\ (forall kind,
        kind <> "all" -> kind <> "q" -> kind <> "v" ->
        fst (num_nodes self kind) = inl (ValueError (InvalidKind kind))).
Proof.
  destruct (get_stats_spec self) as [stats [self' [E [_ [_ [_ Hok]]]]]].
  pose proof (get_stats_again _ _ _ E) as E'.
  split.
  - exists (total_vnodes stats + total_qnodes stats),
      (total_vnodes stats), (total_qnodes stats), self', self', self'.
    unfold num_nodes. rewrite E, E'. simpl.
    do 4 (split; [reflexivity |]).
    intros Hcache Hdict. specialize (Hok Hcache). unfold tree_stats in Hok.
    destruct (tree_stats_helper_counts
                (S (height (node (TreeDebugger_c self))))
                (TreeDebugger_c self) 0 initial_stats)
      as [s [Es [Hv Hq]]]; [lia | assumption |].
    rewrite Es in Hok. simpl in Hok. destruct s. simpl in *.
    injection Hok as <-. simpl. lia.
  - intros kind H1 H2 H3. unfold num_nodes. rewrite E. simpl.
    apply String.eqb_neq in H1, H2, H3. now rewrite H1, H2, H3.
Qed.

(** C10: when no decision node lies within the depth bound of the statistics
    traversal, the computed [max_depth] is the initial -1; and for a debugger
    with a coherent cache whose current tree has no decision node, the
    [depth] property is -1 and [layer(d)] raises the out-of-range
    [ValueError] for every [d >= 0]. *)
Theorem no_decision_max_depth :
  (forall (root : NodePP) (md : option Z),
      (forall path ns,
          walk (node root) path = Some ns ->
          beyond md (Z.of_nat (List.length path)) = false ->
          is_VNode (List.last ns (node root)) = false) ->
      exists stats, tree_stats root md = inr stats /\ max_depth stats = -1)
  /\ (forall (self : TreeDebugger),
        stats_cache_ok self ->
        (forall path ns,
            walk (node (TreeDebugger_c self)) path = Some ns ->
            is_VNode (List.last ns (node (TreeDebugger_c self))) = false) ->
        fst (TreeDebugger_depth self) = inr (-1)
        /\ forall d, 0 <= d ->
             fst (layer self d) = inl (ValueError (DepthOutOfRange d (-1)))).
Proof.
  assert (Hstats : forall (root : NodePP) (md : option Z),
      (forall path ns,
          walk (node root) path = Some ns ->
          beyond md (Z.of_nat (List.length path)) = false ->
          is_VNode (List.last ns (node root)) = false) ->
      exists stats, tree_stats root md = inr stats /\ max_depth stats = -1).
  { intros root md Hno. unfold tree_stats.
    destruct (tree_stats_helper_keeps_depth md (S (height (node root)))
                root 0 initial_stats) as [s [Es Hm]]; [lia | exact Hno |].
    rewrite Es. simpl. destruct s. simpl in *. eexists. split; [reflexivity |].
    simpl. exact Hm. }
  split; [exact Hstats |].
  intros self Hok Hno.
  destruct (get_stats_spec self) as [stats [self' [E [_ [_ [_ Hts]]]]]].
  destruct (Hstats (TreeDebugger_c self) None) as [stats' [Hs' Hm]].
  { intros path ns Hw _. exact (Hno path ns Hw). }
  assert (stats' = stats) by (specialize (Hts Hok); congruence). subst stats'.
  assert (Hd : TreeDebugger_depth self = (inr (-1), self')).
  { unfold TreeDebugger_depth. rewrite E. simpl. now rewrite Hm. }
  split; [now rewrite Hd |].
  intros d Hd0. unfold layer. rewrite Hd. simpl.
  replace (d <? 0) with false by (symmetry; apply Z.ltb_ge; lia).
  replace (-1 <? d) with true by (symmetry; apply Z.ltb_lt; lia).
  reflexivity.
Qed.

(* ------------------------------------------------------------------ *)
(** ** Strings and enumeration *)

Lemma str_append_assoc (a b d : string) : ((a ++ b) ++ d = a ++ (b ++ d))%string.
Proof. induction a as [| x a IH]; simpl; [reflexivity | now rewrite IH]. Qed.

Lemma str_append_nil_r (a : string) : (a ++ "" = a)%string.
Proof. induction a as [| x a IH]; simpl; [reflexivity | now rewrite IH]. Qed.


Lemma enumerate_from_In {A} (l : list A) (s : nat) (i : Z) (a : A) :
  In (i, a) (combine (map Z.of_nat (seq s (List.length l))) l)
  <-> exists k, i = Z.of_nat (s + k) /\ nth_error l k = Some a.
Proof.
  revert s. induction l as [| x xs IH]; intros s; simpl.
  - split; [tauto |]. intros [k [_ H]]. destruct k; discriminate.
  - split.
    + intros [Heq | Hin].
      * injection Heq as <- <-. exists O. split; [f_equal; lia | reflexivity].
      * apply IH in Hin. destruct Hin as [k [-> Hk]].
        exists (S k). split; [f_equal; lia | exact Hk].
    + intros [k [-> Hk]]. destruct k as [| k]; simpl in Hk.
      * left. injection Hk as ->. f_equal. f_equal. lia.
      * right. apply IH. exists k. split; [f_equal; lia | exact Hk].
Qed.

Lemma enumerate_In {A} (l : list A) (i : Z) (a : A) :
  In (i, a) (enumerate l)
  <-> exists k, i = Z.of_nat k /\ nth_error l k = Some a.
Proof. unfold enumerate. now rewrite enumerate_from_In. Qed.

Lemma enumerate_In_r {A} (l : list A) (i : Z) (a : A) :
  In (i, a) (enumerate l) -> In a l.
Proof.
  intros H. apply enumerate_In in H. destruct H as [k [_ Hk]].
  eapply nth_error_In; eauto.
Qed.

Lemma In_enumerate {A} (l : list A) (a : A) :
  In a l -> exists i, In (i, a) (enumerate l).
Proof.
  intros H. apply In_nth_error in H. destruct H as [k Hk].
  exists (Z.of_nat k). apply enumerate_In. eauto.
Qed.


(* ------------------------------------------------------------------ *)
(** ** The string form of a proxy *)

Lemma children_listing_total (n : TreeNode) (indent : nat) :
  exists listing, children_listing n indent = inr listing.
Proof.
  unfold children_listing.
  match goal with
  | |- exists _, for_each ?l ?body ?a = _ =>
      destruct (for_each_invariant l body (fun _ _ => True)
                  (fun _ => I) (fun _ _ _ _ _ => I)) with (acc := a)
        as [listing [E _]]
  end.
  - intros acc [i action] Hin. apply enumerate_In_r in Hin.
    apply (proj1 (sorted_by_str_In _ _)) in Hin.
    destruct (dict_get_In_keys _ _ Hin) as [child Hchild].
    unfold dict_getitem. rewrite Hchild. simpl. eauto.
  - eauto.
Qed.

(** The string form is the header alone once [print_children] is off, and the
    header followed by the listing of the children while it is on. *)
Lemma NodePP_str_spec (self : NodePP) :
  exists listing,
    children_listing (node self) 1 = inr listing
    /\ NodePP_str self
       = inr (if print_children self
              then (node_header (pp_class_name (node self)) (node self)
                      (parent_edge self)
                    ++ newline ++ listing ++ newline)%string
              else node_header (pp_class_name (node self)) (node self)
                     (parent_edge self)).
Proof.
  destruct (children_listing_total (node self) 1) as [listing E].
  exists listing. split; [assumption |].
  unfold NodePP_str, single_node_str.
  destruct (print_children self); [| reflexivity].
  now rewrite E.
Qed.

(* ------------------------------------------------------------------ *)
(** ** Rendering: [_print_tree_helper] *)

Lemma list_getitem_last {A} (l : list A) (x : A) :
  list_getitem (l ++ [x]) (-1) = inr x.
Proof.
  unfold list_getitem. rewrite length_app. simpl List.length.
  replace (0 <=? -1) with false by reflexivity. simpl andb.
  replace (- Z.of_nat (List.length l + 1) <=? -1) with true
    by (symmetry; apply Z.leb_le; lia).
  replace (-1 <? 0) with true by reflexivity. simpl andb.
  replace (Z.to_nat (Z.of_nat (List.length l + 1) + -1)) with (List.length l)
    by lia.
  rewrite nth_error_app2 by lia. rewrite Nat.sub_diag. reflexivity.
Qed.

(** The line of a call whose last position is [x]. *)
Lemma print_line_last (root : NodePP) (above : list (option position))
  (x : option position) (depth : Z) :
  print_line root (above ++ [x]) depth
  = (s <- NodePP_str root ;;
     let line := ((preceding_branches above ++ last_branch x) ++ s)%string in
     ret (if isinstance_VNode root
          then (line ++ typ_cyan ("(depth=" ++ str_of_Z depth ++ ")"))%string
          else line)).
Proof.
  unfold print_line. now rewrite list_getitem_last, removelast_last.
Qed.

Lemma print_line_total (root : NodePP) (branch_positions : list (option position))
  (depth : Z) :
  branch_positions <> [] ->
  exists line, print_line root branch_positions depth = inr line.
Proof.
  intros Hne. destruct (exists_last Hne) as [above [x ->]].
  rewrite print_line_last.
  destruct (NodePP_str_spec root) as [listing [_ E]]. rewrite E. simpl. eauto.
Qed.

(** A loop that appends, for each element, the lines of its visits. *)
Lemma for_each_flat_map {A V L} (l : list A)
  (body : list L -> A -> result (list L)) (g : A -> list V)
  (rel : V -> L -> Prop) :
  (forall acc x, In x l ->
     exists extra, body acc x = inr (acc ++ extra)%list
                   /\ Forall2 rel (g x) extra) ->
  forall acc,
    exists extra, for_each l body acc = inr (acc ++ extra)%list
                  /\ Forall2 rel (flat_map g l) extra.
Proof.
  induction l as [| x xs IH]; intros Hstep acc; simpl.
  - exists []. rewrite app_nil_r. split; [reflexivity | constructor].
  - destruct (Hstep acc x) as [e1 [E1 F1]]; [now left |].
    rewrite E1. simpl.
    destruct (IH (fun a y Hy => Hstep a y (or_intror Hy)) (acc ++ e1)%list)
      as [e2 [E2 F2]].
    exists (e1 ++ e2)%list. rewrite app_assoc. split; [assumption |].
    now apply Forall2_app.
Qed.

(** The helper returns, switches [print_children] off at its root unless the
    root is beyond the depth bound, and prints one line per visit. *)
Lemma print_tree_helper_spec (md : option Z) (pt : string) (fuel : nat) :
  forall (root : NodePP) (pe : label) (path : list label)
         (bp : list (option position)) (depth : Z),
    (height (node root) < fuel)%nat ->
    bp <> [] ->
    exists lines,
      _print_tree_helper fuel root pe bp depth md pt
      = inr (if beyond md depth then root else set_print_children root false,
             lines)
      /\ Forall2 visit_line
           (print_tree_visits fuel root path bp depth md pt) lines.
Proof.
  induction fuel as [| fuel' IH]; intros root pe path bp depth Hh Hbp; [lia |].
  simpl. destruct (beyond md depth) eqn:Eb.
  - exists []. split; [reflexivity | constructor].
  - destruct (print_line_total (set_print_children root false) bp depth Hbp)
      as [line Eline].
    rewrite Eline. simpl.
    match goal with
    | |- context [for_each ?l ?body [line]] =>
        destruct (for_each_flat_map l body
                    (fun ic : Z * label =>
                       let '(i, c) := ic in
                       match getitem (set_print_children root false) c with
                       | inr root_c =>
                           if String.eqb pt "complete"
                              || (1 <? num_visits (node root_c))
                           then
                             print_tree_visits fuel' root_c (path ++ [c])%list
                               (bp ++ [Some (next_pos i (Z.of_nat
                                         (List.length (children (node root)))))])%list
                               (if isinstance_QNode root_c then depth
                                else depth + 1)
                               md pt
                           else []
                       | inl _ => []
                       end)
                    visit_line)
          with (acc := [line]) as [extra [E F]]
    end.
    + intros acc [i c] Hin. apply enumerate_In_r in Hin.
      apply (proj1 (sorted_by_str_In _ _)) in Hin.
      destruct (dict_get_In_keys _ _ Hin) as [child Hchild].
      rewrite (getitem_key (set_print_children root false) _ _ Hchild).
      simpl.
      destruct (String.eqb pt "complete" || (1 <? num_visits child)).
      * match goal with
        | |- context [_print_tree_helper fuel' ?r ?e ?b ?d md pt] =>
            destruct (IH r e (path ++ [c])%list b d) as [ls [El Fl]]
        end.
        { simpl. apply height_dict_get in Hchild. simpl in Hchild. lia. }
        { intros Hnil. apply app_eq_nil in Hnil. destruct Hnil; discriminate. }
        rewrite El. simpl. exists ls. split; [reflexivity | exact Fl].
      * exists []. rewrite app_nil_r. split; [reflexivity | constructor].
    + rewrite E. simpl. exists (line :: extra). split; [reflexivity |].
      constructor; [exact Eline | exact F].
Qed.

Lemma beyond_mono (md : option Z) (d d' : Z) :
  d <= d' -> beyond md d' = false -> beyond md d = false.
Proof.
  destruct md as [m |]; simpl; [| reflexivity].
  rewrite !Z.ltb_ge. lia.
Qed.

Lemma count_decisions_nonneg (ns : list TreeNode) : 0 <= count_decisions ns.
Proof. unfold count_decisions. lia. Qed.

Lemma in_map_flat_map {A B C} (f : B -> C) (g : A -> list B) (l : list A) (y : C) :
  In y (map f (flat_map g l)) <-> exists x, In x l /\ In y (map f (g x)).
Proof.
  rewrite in_map_iff. split.
  - intros [b [Hb Hin]]. apply in_flat_map in Hin. destruct Hin as [x [Hx Hbx]].
    exists x. split; [assumption |]. apply in_map_iff. eauto.
  - intros [x [Hx Hin]]. apply in_map_iff in Hin. destruct Hin as [b [Hb Hbx]].
    exists b. split; [assumption |]. apply in_flat_map. eauto.
Qed.

(** The paths visited below [root] are the paths of the tree that stay within
    the depth bound and, unless the print type is "complete", enter only
    children visited more than once. *)
Lemma print_tree_visits_paths (md : option Z) (pt : string) (fuel : nat) :
  forall (root : NodePP) (path : list label) (bp : list (option position))
         (depth : Z) (q : list label),
    (height (node root) < fuel)%nat ->
    In q (map visit_path (print_tree_visits fuel root path bp depth md pt))
    <-> exists rest ns,
        q = (path ++ rest)%list
        /\ walk (node root) rest = Some ns
        /\ beyond md (depth + count_decisions ns) = false
        /\ (pt = "complete" \/ Forall (fun n => 1 < num_visits n) ns).
Proof.
  induction fuel as [| fuel' IH]; intros root path bp depth q Hh; [lia |].
  simpl print_tree_visits. destruct (beyond md depth) eqn:Eb.
  - split; [intros [] |].
    intros [rest [ns [_ [_ [Hb _]]]]].
    apply (beyond_mono md depth) in Hb;
      [congruence | pose proof (count_decisions_nonneg ns); lia].
  - simpl map. simpl In. rewrite in_map_flat_map. split.
    + intros [Hq | [[i c] [Hic Hin]]].
      * exists [], []. rewrite app_nil_r. simpl.
        rewrite Z.add_0_r. repeat split; auto.
      * apply enumerate_In_r in Hic.
        apply (proj1 (sorted_by_str_In _ _)) in Hic.
        destruct (dict_get_In_keys _ _ Hic) as [child Hchild].
        rewrite (getitem_key (set_print_children root false) _ _ Hchild) in Hin.
        simpl in Hin.
        destruct (String.eqb pt "complete" || (1 <? num_visits child)) eqn:Ec;
          [| destruct Hin].
        apply IH in Hin;
          [| simpl; apply height_dict_get in Hchild; simpl in Hchild; lia].
        destruct Hin as [rest [ns [-> [Hw [Hb Hf]]]]]. simpl in Hw.
        exists (c :: rest), (child :: ns).
        split; [now rewrite <- app_assoc |].
        split; [now apply walk_cons |].
        split.
        { rewrite count_decisions_cons. rewrite <- Hb. f_equal.
          unfold isinstance_QNode, is_VNode. simpl.
          destruct (cls child); lia. }
        destruct Hf as [Hf | Hf]; [now left |].
        apply orb_true_iff in Ec. destruct Ec as [Ec | Ec].
        { left. now apply String.eqb_eq. }
        right. constructor; [now apply Z.ltb_lt | assumption].
    + intros [rest [ns [-> [Hw [Hb Hf]]]]].
      destruct rest as [| c rest]; [left; now rewrite app_nil_r |].
      right. simpl in Hw.
      destruct (dict_get (children (node root)) c) as [child |] eqn:Hchild;
        [| discriminate].
      destruct (walk child rest) as [ns' |] eqn:Hw'; [| discriminate].
      injection Hw as <-.
      assert (Hkey : In c (sorted_by_str (keys (children (node root))))).
      { apply sorted_by_str_In. eapply dict_get_keys; eauto. }
      destruct (In_enumerate _ _ Hkey) as [i Hi].
      exists (i, c). split; [exact Hi |].
      rewrite (getitem_key (set_print_children root false) _ _ Hchild).
      simpl.
      assert (Ec : String.eqb pt "complete" || (1 <? num_visits child) = true).
      { apply orb_true_iff. destruct Hf as [-> | Hf]; [now left |].
        right. inversion Hf; subst. now apply Z.ltb_lt. }
      rewrite Ec. apply IH.
      { simpl. apply height_dict_get in Hchild. lia. }
      exists rest, ns'. split; [now rewrite <- app_assoc |].
      split; [assumption |].
      split.
      { rewrite count_decisions_cons in Hb. rewrite <- Hb. f_equal.
        unfold isinstance_QNode, is_VNode. simpl.
        destruct (cls child); lia. }
      destruct Hf as [Hf | Hf]; [now left |].
      right. now inversion Hf.
Qed.

(* ------------------------------------------------------------------ *)
(** ** Branch prefixes *)








Lemma Forall2_In_impl {A B} (R R' : A -> B -> Prop) (l1 : list A) (l2 : list B) :
  (forall x y, In x l1 -> R x y -> R' x y) ->
  Forall2 R l1 l2 -> Forall2 R' l1 l2.
Proof.
  intros H F. induction F as [| x y xs ys Hxy F IH]; constructor.
  - apply H; [now left | assumption].
  - apply IH. intros a b Ha. apply H. now right.
Qed.


(* ------------------------------------------------------------------ *)
(** ** No node is visited twice *)





(* ------------------------------------------------------------------ *)
(** ** [print_children] after rendering *)

Lemma beyond_0 (md : option Z) :
  (forall m, md = Some m -> 0 <= m) -> beyond md 0 = false.
Proof.
  intros H. destruct md as [m |]; simpl; [| reflexivity].
  apply Z.ltb_ge. now apply H.
Qed.

Lemma print_tree_returns (self : NodePP) (md : option Z) (pt : string) :
  exists lines,
    print_tree self md pt
    = inr (if beyond md 0 then self else set_print_children self false, lines).
Proof.
  unfold print_tree.
  destruct (print_tree_helper_spec md pt (S (height (node self))) self
              (PyStr "") [] [None] 0) as [lines [E _]];
    [lia | discriminate |].
  eauto.
Qed.

Lemma print_tree_returns_node (self : NodePP) (md : option Z) (pt : string) :
  exists root lines,
    print_tree self md pt = inr (root, lines) /\ node root = node self.
Proof.
  destruct (print_tree_returns self md pt) as [lines E].
  eexists; exists lines. split; [exact E |].
  now destruct (beyond md 0).
Qed.

(** The statistics depend on the wrapped node only. *)
Lemma tree_stats_node (root root' : NodePP) (md : option Z) :
  node root = node root' -> tree_stats root md = tree_stats root' md.
Proof.
  destruct root as [n e b], root' as [n' e' b']. simpl. intros <-.
  reflexivity.
Qed.

(** X21: coherence of the cache (a cached entry for the current proxy is
    the statistics of its tree) holds at construction and is kept by every
    method of the debugger: [_get_stats], [num_nodes], [depth], [layer] and
    [p]. *)
Lemma stats_cache_ok_invariant :
  (forall t, stats_cache_ok (TreeDebugger_init t))
  /\ (forall self, stats_cache_ok self -> stats_cache_ok (snd (_get_stats self)))
  /\ (forall self kind,
        stats_cache_ok self -> stats_cache_ok (snd (num_nodes self kind)))
  /\ (forall self,
        stats_cache_ok self -> stats_cache_ok (snd (TreeDebugger_depth self)))
  /\ (forall self d, stats_cache_ok self -> stats_cache_ok (snd (layer self d)))
  /\ (forall self md pt,
        stats_cache_ok self -> stats_cache_ok (snd (TreeDebugger_p self md pt))).
Proof.
  assert (Hget : forall self,
             stats_cache_ok self -> stats_cache_ok (snd (_get_stats self))).
  { intros self Hok.
    destruct (get_stats_spec self) as [stats [self' [E [Hh [Hc [Hcache Hts]]]]]].
    rewrite E. simpl. intros s Hs.
    assert (Hcur : TreeDebugger_c self' = TreeDebugger_c self)
      by (unfold TreeDebugger_c; now rewrite Hh, Hc).
    rewrite Hcur. rewrite Hcache in Hs. injection Hs as <-. now apply Hts. }
  split; [intros t stats H; discriminate H |].
  split; [exact Hget |].
  split.
  { intros self kind Hok. specialize (Hget self Hok). unfold num_nodes.
    destruct (_get_stats self). exact Hget. }
  assert (Hdepth : forall self,
             stats_cache_ok self ->
             stats_cache_ok (snd (TreeDebugger_depth self))).
  { intros self Hok. specialize (Hget self Hok). unfold TreeDebugger_depth.
    destruct (_get_stats self). exact Hget. }
  split; [exact Hdepth |].
  split.
  { intros self d Hok. specialize (Hdepth self Hok). unfold layer.
    destruct (TreeDebugger_depth self). exact Hdepth. }
  intros self md pt Hok. unfold TreeDebugger_p, NodePP_p.
  destruct (print_tree_returns_node (TreeDebugger_c self) md pt)
    as [root [lines [E Hnode]]].
  rewrite E. simpl. intros s Hs. simpl in Hs.
  unfold TreeDebugger_c. simpl. rewrite Nat.eqb_refl.
  rewrite (tree_stats_node root (TreeDebugger_c self) None Hnode).
  now apply Hok.
Qed.

(** C9 (as amended): a proxy is built with [print_children = True]; a
    [print_tree] or [p] call whose [max_depth] is [None] or not negative, and
    every [pp] call, returns with the [print_children] flag of the proxy it
    starts from switched off and with the wrapped node and the parent edge
    unchanged; the string form of the proxy is then the header alone, where
    it was the header followed by the listing of the children while the flag
    was on; the same holds for the string form of a debugger whose current
    proxy it is; and a later call, whatever its options, leaves the flag
    off. *)
Theorem print_tree_switches_print_children (self : NodePP) (md : option Z)
  (pt : string) :
  (forall m, md = Some m -> 0 <= m) ->
  let header :=
    node_header (pp_class_name (node self)) (node self) (parent_edge self) in
  let self' := set_print_children self false in
  (forall n e, print_children (_node_pp n e) = true)
  /\ exists lines listing,
      print_tree self md pt = inr (self', lines)
      /\ NodePP_p self md pt = inr (self', lines)
      /\ (exists lines', NodePP_pp self = inr (self', lines'))
      /\ node self' = node self
      /\ parent_edge self' = parent_edge self
      /\ print_children self' = false
      /\ NodePP_str self' = inr header
      /\ children_listing (node self) 1 = inr listing
      /\ (print_children self = true ->
          NodePP_str self
          = inr (header ++ newline ++ listing ++ newline)%string)
      /\ (forall dbg,
            TreeDebugger_c dbg = self ->
            exists dbg',
              TreeDebugger_p dbg md pt = (inr lines, dbg')
              /\ TreeDebugger_c dbg' = self'
              /\ TreeDebugger_str dbg' = inr header)
      /\ (forall md' pt',
            exists lines', print_tree self' md' pt' = inr (self', lines')).
Proof.
  intros Hmd header self'. split; [reflexivity |].
  destruct (print_tree_returns self md pt) as [lines E].
  rewrite (beyond_0 md Hmd) in E. fold self' in E.
  destruct (NodePP_str_spec self) as [listing [El Es]].
  destruct (NodePP_str_spec self') as [listing' [_ Es']]. simpl in Es'.
  exists lines, listing.
  split; [exact E |]. split; [exact E |].
  split; [destruct (print_tree_returns self None "summary") as [ls Hls];
          exists ls; exact Hls |].
  do 3 (split; [reflexivity |]).
  split; [exact Es' |]. split; [exact El |].
  split; [intros Hp; rewrite Hp in Es; exact Es |].
  split.
  - intros dbg Hdbg. unfold TreeDebugger_p, NodePP_p. rewrite Hdbg, E.
    eexists. split; [reflexivity |].
    unfold TreeDebugger_str, TreeDebugger_c. simpl. rewrite Nat.eqb_refl.
    split; [reflexivity | exact Es'].
  - intros md' pt'. destruct (print_tree_returns self' md' pt') as [ls Hls].
    exists ls. rewrite Hls. now destruct (beyond md' 0).
Qed.

(* ------------------------------------------------------------------ *)
(** ** The preferred path *)

Lemma Qltb_lt (x y : Q) : Qltb x y = true <-> (x < y)%Q.
Proof.
  unfold Qltb. rewrite negb_true_iff. split.
  - intros H. apply Qnot_le_lt. intros Hle. apply Qle_bool_iff in Hle.
    congruence.
  - intros H. destruct (Qle_bool y x) eqn:E; [| reflexivity].
    apply Qle_bool_iff in E. exfalso. eapply Qlt_not_le; eauto.
Qed.

Lemma Qltb_ge (x y : Q) : Qltb x y = false <-> (y <= x)%Q.
Proof.
  unfold Qltb. rewrite negb_false_iff. apply Qle_bool_iff.
Qed.

Lemma child_value_key (root : TreeNode) (c : label) :
  In c (keys (children root)) -> child_value root c = inr (value_at root c).
Proof.
  intros Hin. destruct (dict_get_In_keys _ _ Hin) as [child Hchild].
  unfold child_value, value_at, TreeNode_getitem. now rewrite Hchild.
Qed.

Lemma best_loop_steps (root : TreeNode) (l : list label) :
  (forall c, In c l -> In c (keys (children root))) ->
  forall done best,
    first_greatest root done best ->
    exists best',
      for_each l
        (fun best c =>
           v <- child_value root c ;;
           if float_gt v (snd best) then ret (Some c, Finite v) else ret best)
        best = inr best'
      /\ first_greatest root (done ++ l) best'.
Proof.
  induction l as [| c rest IH]; intros Hl done best Hinv; simpl.
  - exists best. now rewrite app_nil_r.
  - rewrite (child_value_key root c) by (apply Hl; now left). simpl.
    replace (done ++ c :: rest)%list with ((done ++ [c]) ++ rest)%list
      by now rewrite <- app_assoc.
    assert (Hstep : first_greatest root (done ++ [c])
              (if float_gt (value_at root c) (snd best)
               then (Some c, Finite (value_at root c)) else best)).
    { destruct best as [[b |] bv]; unfold first_greatest in *; simpl in *.
      - destruct Hinv as [-> [before [after [-> [Hb Ha]]]]]. simpl.
        destruct (Qltb (value_at root b) (value_at root c)) eqn:E; simpl.
        + apply Qltb_lt in E. split; [reflexivity |].
          exists (before ++ b :: after)%list, []. split; [reflexivity |].
          split; [| constructor].
          apply Forall_app. split.
          { eapply Forall_impl; [| exact Hb]. intros x Hx. simpl in Hx.
            eapply Qlt_trans; eauto. }
          constructor; [exact E |].
          eapply Forall_impl; [| exact Ha]. intros x Hx. simpl in Hx.
          eapply Qle_lt_trans; eauto.
        + apply Qltb_ge in E. split; [reflexivity |].
          exists before, (after ++ [c])%list.
          split; [now rewrite <- app_assoc |].
          split; [assumption |].
          apply Forall_app. split; [assumption | now constructor].
      - destruct Hinv as [-> ->]. simpl. split; [reflexivity |].
        exists [], []. repeat split; constructor. }
    destruct (float_gt (value_at root c) (snd best)); simpl;
      (apply IH; [intros x Hx; apply Hl; now right | exact Hstep]).
Qed.

Lemma equally_good_steps (root : TreeNode) (best_child : option label)
  (best_value : pyfloat) (l : list label) :
  (forall c, In c l -> In c (keys (children root))) ->
  forall acc,
    for_each l
      (fun equally_good c =>
         v <- child_value root c ;;
         if negb (is_best c best_child) && float_eq v best_value
         then ret (equally_good ++ [c])%list
         else ret equally_good)
      acc
    = inr (acc ++ filter
                    (fun c => negb (is_best c best_child)
                              && float_eq (value_at root c) best_value) l)%list.
Proof.
  induction l as [| c rest IH]; intros Hl acc; simpl.
  - now rewrite app_nil_r.
  - rewrite (child_value_key root c) by (apply Hl; now left). simpl.
    destruct (negb (is_best c best_child)
              && float_eq (value_at root c) best_value); simpl.
    + rewrite IH by (intros x Hx; apply Hl; now right).
      now rewrite <- app_assoc.
    + apply IH. intros x Hx. apply Hl. now right.
Qed.

Lemma preferred_loops (root : TreeNode) :
  exists best_child best_value,
    best_loop root = inr (best_child, best_value)
    /\ first_greatest root (keys (children root)) (best_child, best_value)
    /\ equally_good_loop root best_child best_value
       = inr (match cls root with
              | VNode => other_best root best_child best_value
              | QNode => []
              end).
Proof.
  destruct (best_loop_steps root (keys (children root)) (fun c H => H)
              [] (None, NegInf)) as [[bc bv] [E Hinv]].
  { unfold first_greatest. simpl. auto. }
  exists bc, bv. split; [exact E |]. split; [exact Hinv |].
  unfold equally_good_loop. destruct (cls root); [| reflexivity].
  now rewrite equally_good_steps.
Qed.


(* ------------------------------------------------------------------ *)
(** ** Further properties: sorting and child lookup *)

(** X1: [sorted_by_str] returns a permutation of its argument that is
    ascending in the string form, and labels with the same string form keep
    the order they had. *)
Theorem sorted_by_str_is_stable_sort (l : list label) :
  Permutation l (sorted_by_str l)
  /\ Sorted str_le (sorted_by_str l)
  /\ forall s,
      filter (fun y => String.eqb (str y) s) (sorted_by_str l)
      = filter (fun y => String.eqb (str y) s) l.
Proof.
  split; [apply sorted_by_str_perm |].
  split; [apply sorted_by_str_sorted |].
  intros s. apply sorted_by_str_stable.
Qed.

Lemma sorted_by_str_fixes_sorted (l : list label) :
  Sorted str_le l -> sorted_by_str l = l.
Proof.
  induction 1 as [| a l Hs IH Hhd]; simpl; [reflexivity |].
  rewrite IH. destruct Hhd as [| b l Hab]; simpl; [reflexivity |].
  unfold str_le in Hab. now rewrite Hab.
Qed.

(** X2: a list that is already ascending in the string form is left as it
    is, so sorting twice is sorting once. *)
Theorem sorted_by_str_idempotent (l : list label) :
  sorted_by_str (sorted_by_str l) = sorted_by_str l
  /\ forall l', Sorted str_le l' -> sorted_by_str l' = l'.
Proof.
  split; [| exact sorted_by_str_fixes_sorted].
  apply sorted_by_str_fixes_sorted, sorted_by_str_sorted.
Qed.

Lemma dict_getitem_inr (d : dict) (key : label) (v : TreeNode) :
  dict_getitem d key = inr v -> dict_get d key = Some v.
Proof.
  unfold dict_getitem. destruct (dict_get d key); [| discriminate].
  now intros [= ->].
Qed.

Lemma bind_inr {A B} (m : result A) (k : A -> result B) (b : B) :
  bind m k = inr b -> exists a, m = inr a /\ k a = inr b.
Proof. destruct m as [e | a]; simpl; [discriminate | eauto]. Qed.

(** X3: whatever the kind of key, a lookup that returns gives a fresh proxy
    (its [print_children] flag is on) of a child of the node, whose parent
    edge is the edge label of that child; the exact lookup of that label
    returns the same proxy. *)
Theorem getitem_returns_child (self : NodePP) (key : label) (r : NodePP) :
  getitem self key = inr r ->
  exists e,
    parent_edge r = Some e
    /\ dict_get (children (node self)) e = Some (node r)
    /\ print_children r = true
    /\ getitem self e = inr r.
Proof.
  assert (Hmk : forall e child,
             dict_get (children (node self)) e = Some child ->
             exists e',
               parent_edge (_node_pp child (Some e)) = Some e'
               /\ dict_get (children (node self)) e'
                  = Some (node (_node_pp child (Some e)))
               /\ print_children (_node_pp child (Some e)) = true
               /\ getitem self e' = inr (_node_pp child (Some e))).
  { intros e child Hc. exists e. simpl. repeat split; try assumption.
    now apply getitem_key. }
  unfold getitem.
  destruct (dict_contains key (children (node self))).
  - intros H. apply bind_inr in H. destruct H as [child [Hc [= <-]]].
    apply Hmk. now apply dict_getitem_inr.
  - destruct key as [k | s | name]; [| | discriminate].
    + intros H. apply bind_inr in H. destruct H as [e [_ H]].
      apply bind_inr in H. destruct H as [child [Hc [= <-]]].
      apply Hmk. now apply dict_getitem_inr.
    + intros H. apply bind_inr in H. destruct H as [chosen [_ H]].
      destruct (Qle_bool SIMILAR_THRESH (similar (str chosen) s));
        [| discriminate].
      apply bind_inr in H. destruct H as [child [Hc [= <-]]].
      apply Hmk. now apply dict_getitem_inr.
Qed.

Lemma children_nil_keys (d : dict) : keys d = [] -> d = [].
Proof. destruct d; [reflexivity | discriminate]. Qed.

(** X4: a lookup that raises was given a key that is no edge label, and
    raises [IndexError] for an integer outside [[-len, len)], the
    [ValueError] of [max()] for a string on a node without children, and the
    [ValueError] that names the key for a string on a node with children and
    for any other key; it never raises a [KeyError]. *)
Theorem getitem_raises (self : NodePP) (key : label) (e : exn) :
  getitem self key = inl e ->
  dict_contains key (children (node self)) = false
  /\ match key with
     | PyInt k =>
         e = IndexError
         /\ (k < - Z.of_nat (List.length (children (node self)))
             \/ Z.of_nat (List.length (children (node self))) <= k)
     | PyStr s =>
         (children (node self) = [] /\ e = ValueError MaxEmptySequence)
         \/ (children (node self) <> []
             /\ e = ValueError (CannotAccessChildren key))
     | PyObj _ => e = ValueError (CannotAccessChildren key)
     end.
Proof.
  intros H.
  destruct (dict_contains key (children (node self))) eqn:Ec.
  { apply dict_contains_In in Ec. destruct (dict_get_In_keys _ _ Ec) as [v Hv].
    rewrite (getitem_key _ _ _ Hv) in H. discriminate H. }
  split; [reflexivity |].
  destruct key as [k | s | name].
  - set (n := Z.of_nat (List.length (children (node self)))).
    assert (Hlen : Z.of_nat (List.length
                     (sorted_by_str (keys (children (node self))))) = n)
      by (unfold n; now rewrite sorted_by_str_length, keys_length).
    destruct (Z_lt_ge_dec k (- n)) as [Hlo | Hlo].
    { unfold getitem in H. rewrite Ec, list_getitem_outside in H by lia.
      simpl in H. injection H as <-. auto. }
    destruct (Z_lt_ge_dec k n) as [Hhi | Hhi].
    2:{ unfold getitem in H. rewrite Ec, list_getitem_outside in H by lia.
        simpl in H. injection H as <-. split; [reflexivity | right; lia]. }
    exfalso.
    assert (Hsome : exists x,
               list_getitem (sorted_by_str (keys (children (node self)))) k
               = inr x
               /\ In x (sorted_by_str (keys (children (node self))))).
    { destruct (Z_lt_ge_dec k 0).
      - destruct (list_getitem_negative
                    (sorted_by_str (keys (children (node self)))) k)
          as [x [Hn Hg]]; [lia |].
        exists x. split; [assumption | eapply nth_error_In; eauto].
      - destruct (list_getitem_nonneg
                    (sorted_by_str (keys (children (node self)))) k)
          as [x [Hn Hg]]; [lia |].
        exists x. split; [assumption | eapply nth_error_In; eauto]. }
    destruct Hsome as [x [Hg Hin]].
    destruct (getitem_edge_at self k x Ec Hg Hin) as [child [_ Hok]].
    congruence.
  - destruct (children (node self)) as [| kv rest] eqn:Ech.
    + left. split; [reflexivity |].
      unfold getitem in H. rewrite Ech in H. simpl in H. now injection H as <-.
    + right. split; [discriminate |].
      destruct (getitem_str_similar self s) as [chosen [child [_ [_ [_ Hg]]]]].
      * rewrite Ech. discriminate.
      * now rewrite Ech.
      * rewrite Hg in H.
        destruct (Qle_bool SIMILAR_THRESH (similar (str chosen) s));
          [discriminate |].
        now injection H as <-.
  - unfold getitem in H. rewrite Ec in H. now injection H as <-.
Qed.

Lemma py_max_first_fold {A} (f : A -> Q) (xs : list A) :
  forall (before after : list A) (cur : A),
    Forall (fun y => (f y < f cur)%Q) before ->
    Forall (fun y => (f y <= f cur)%Q) after ->
    let r := fold_left (fun best y => if Qltb (f best) (f y) then y else best)
               xs cur in
    exists before' after',
      (before ++ cur :: after ++ xs = before' ++ r :: after')%list
      /\ Forall (fun y => (f y < f r)%Q) before'
      /\ Forall (fun y => (f y <= f r)%Q) after'.
Proof.
  induction xs as [| y ys IH]; intros before after cur Hb Ha; simpl.
  - exists before, after. rewrite app_nil_r. auto.
  - destruct (Qltb (f cur) (f y)) eqn:E.
    + apply Qltb_lt in E.
      destruct (IH (before ++ cur :: after)%list [] y) as [b' [a' [Heq H]]].
      * apply Forall_app. split.
        { eapply Forall_impl; [| exact Hb]. intros x Hx. simpl in Hx.
          eapply Qlt_trans; eauto. }
        constructor; [exact E |].
        eapply Forall_impl; [| exact Ha]. intros x Hx. simpl in Hx.
        eapply Qle_lt_trans; eauto.
      * constructor.
      * exists b', a'. split; [| exact H].
        rewrite <- Heq. simpl. now rewrite <- !app_assoc.
    + apply Qltb_ge in E.
      destruct (IH before (after ++ [y])%list cur) as [b' [a' [Heq H]]].
      * exact Hb.
      * apply Forall_app. split; [exact Ha | now constructor].
      * exists b', a'. split; [| exact H].
        rewrite <- Heq. now rewrite <- app_assoc.
Qed.

(** X5: on a node with children, a string key that is no edge label selects
    the first edge whose string form has the greatest similarity to the key
    (every earlier edge scores strictly less, every later one at most as
    much); the lookup returns the proxy of that child when the score reaches
    [SIMILAR_THRESH] and raises the [ValueError] that names the key when it
    does not. *)
Theorem getitem_str_first_best (self : NodePP) (s : string) :
  children (node self) <> [] ->
  dict_contains (PyStr s) (children (node self)) = false ->
  exists chosen child before after,
    keys (children (node self)) = (before ++ chosen :: after)%list
    /\ Forall (fun e => (similar (str e) s < similar (str chosen) s)%Q) before
    /\ Forall (fun e => (similar (str e) s <= similar (str chosen) s)%Q) after
    /\ dict_get (children (node self)) chosen = Some child
    /\ ((SIMILAR_THRESH <= similar (str chosen) s)%Q ->
        getitem self (PyStr s) = inr (_node_pp child (Some chosen)))
    /\ ((similar (str chosen) s < SIMILAR_THRESH)%Q ->
        getitem self (PyStr s)
        = inl (ValueError (CannotAccessChildren (PyStr s)))).
Proof.
  intros Hne Hnot. unfold getitem. rewrite Hnot.
  destruct (keys (children (node self))) as [| x xs] eqn:Ek.
  { apply children_nil_keys in Ek. contradiction. }
  simpl py_max.
  destruct (py_max_first_fold (fun edge => similar (str edge) s) xs [] [] x)
    as [before [after [Heq [Hb Ha]]]]; [constructor | constructor |].
  simpl in Heq.
  set (chosen := fold_left _ xs x) in *.
  assert (Hk : In chosen (keys (children (node self)))).
  { rewrite Ek, Heq. apply in_or_app. right. now left. }
  destruct (dict_get_In_keys _ _ Hk) as [child Hchild].
  exists chosen, child, before, after.
  split; [exact Heq |]. split; [exact Hb |]. split; [exact Ha |].
  split; [exact Hchild |].
  simpl bind. split.
  - intros Hle. apply Qle_bool_iff in Hle. rewrite Hle. simpl.
    unfold dict_getitem. now rewrite Hchild.
  - intros Hlt.
    destruct (Qle_bool SIMILAR_THRESH (similar (str chosen) s)) eqn:E;
      [| reflexivity].
    apply Qle_bool_iff in E. exfalso. eapply Qlt_not_le; eauto.
Qed.

(* ------------------------------------------------------------------ *)
(** ** Further properties: string form and rendering *)

Lemma children_listing_steps (n : TreeNode) (indent : nat)
  (l : list (Z * label)) :
  (forall ia, In ia l -> In (snd ia) (keys (children n))) ->
  forall acc,
    exists items,
      for_each l
        (fun output ia =>
           let '(i, action) := ia in
           child <- dict_getitem (children n) action ;;
           let child_info := node_header (class_name child) child None in
           let spaces := str_repeat "    " indent in
           let output :=
             (output ++ spaces ++ "- [" ++ str_of_Z i ++ "] "
                ++ typ_white (str action) ++ ": " ++ child_info)%string in
           ret (if i <? Z.of_nat (List.length (children n)) - 1
                then (output ++ newline)%string else output))
        acc
      = inr (acc ++ str_concat items)%string
      /\ Forall2
           (fun ia item =>
              exists child,
                dict_get (children n) (snd ia) = Some child
                /\ item = listing_item n indent (fst ia) (snd ia) child)
           l items.
Proof.
  induction l as [| [i action] rest IH]; intros Hl acc; simpl for_each.
  - exists []. simpl. rewrite str_append_nil_r. split; [reflexivity | constructor].
  - destruct (dict_get_In_keys _ _ (Hl (i, action) (or_introl eq_refl)))
      as [child Hchild].
    simpl in Hchild.
    unfold dict_getitem at 1. rewrite Hchild. simpl bind. cbv zeta.
    match goal with
    | |- context [for_each rest ?body ?a] =>
        destruct (IH (fun ia H => Hl ia (or_intror H)) a) as [items [E F]]
    end.
    exists (listing_item n indent i action child :: items).
    split.
    + etransitivity; [exact E |]. f_equal. simpl str_concat.
      unfold listing_item.
      destruct (i <? Z.of_nat (List.length (children n)) - 1);
        repeat (rewrite ?str_append_assoc, ?str_append_nil_r; simpl);
        reflexivity.
    + constructor; [| exact F]. exists child. simpl. auto.
Qed.

(** X6: the string form of a proxy whose [print_children] flag is on is its
    header, a newline, one item per child and a final newline; the items
    come in the ascending order of the string forms of the edges, every
    item but the last ends with a newline, and the index shown in an item
    is an index that the integer lookup accepts for that very child (when
    the integer is not itself an edge label). *)
Theorem listing_matches_lookup (self : NodePP) :
  exists items,
    children_listing (node self) 1 = inr (str_concat items)
    /\ (print_children self = true ->
        NodePP_str self
        = inr (node_header (pp_class_name (node self)) (node self)
                 (parent_edge self)
               ++ newline ++ str_concat items ++ newline)%string)
    /\ Forall2
         (fun ia item =>
            exists child,
              dict_get (children (node self)) (snd ia) = Some child
              /\ item = listing_item (node self) 1 (fst ia) (snd ia) child
              /\ (dict_contains (PyInt (fst ia)) (children (node self)) = false ->
                  getitem self (PyInt (fst ia))
                  = inr (_node_pp child (Some (snd ia)))))
         (enumerate (sorted_by_str (keys (children (node self))))) items.
Proof.
  destruct (children_listing_steps (node self) 1
              (enumerate (sorted_by_str (keys (children (node self))))))
    with (acc := "") as [items [E F]].
  { intros [i a] Hin. apply enumerate_In_r in Hin.
    now apply (proj1 (sorted_by_str_In _ _)) in Hin. }
  change ("" ++ str_concat items)%string with (str_concat items) in E.
  assert (E' : children_listing (node self) 1 = inr (str_concat items))
    by exact E.
  exists items.
  split; [exact E' |].
  split.
  { intros Hp. unfold NodePP_str, single_node_str. rewrite Hp, E'.
    reflexivity. }
  eapply Forall2_In_impl; [| exact F].
  intros [i a] item Hin [child [Hc Hitem]]. simpl in *.
  exists child. split; [exact Hc |]. split; [exact Hitem |].
  intros Hnot.
  apply enumerate_In in Hin. destruct Hin as [k [-> Hk]].
  destruct (list_getitem_nonneg
              (sorted_by_str (keys (children (node self)))) (Z.of_nat k))
    as [x [Hx Hg]].
  { split; [lia |]. apply Nat2Z.inj_lt. apply nth_error_Some. congruence. }
  rewrite Nat2Z.id in Hx. assert (x = a) by congruence. subst x.
  destruct (getitem_edge_at self (Z.of_nat k) a Hnot Hg) as [child' [Hc' Hok]].
  { eapply nth_error_In; eauto. }
  congruence.
Qed.

(** X7: rendering twice prints the same lines: a second [print_tree] call
    with the same options on the proxy that the first call leaves returns
    the same proxy and the same lines. *)
Theorem print_tree_idempotent (self root : NodePP) (md : option Z)
  (pt : string) (lines : list string) :
  print_tree self md pt = inr (root, lines) ->
  print_tree root md pt = inr (root, lines).
Proof.
  intros H. destruct (print_tree_returns self md pt) as [lines' E].
  rewrite E in H. injection H as <- <-.
  destruct (beyond md 0) eqn:Eb; [exact E |].
  unfold print_tree in *. destruct self as [n e b]. simpl in *.
  rewrite Eb in *. exact E.
Qed.

(** X8: [print_tree] prints nothing exactly when [max_depth] is negative,
    and then leaves the proxy as it is; otherwise the first line is the
    header of the starting proxy, followed by the annotation of depth 0 when
    it is a decision node, with no branch glyph before it. *)
Theorem print_tree_first_line (self : NodePP) (md : option Z) (pt : string) :
  exists root lines,
    print_tree self md pt = inr (root, lines)
    /\ (lines = [] <-> exists m, md = Some m /\ m < 0)
    /\ (lines = [] -> root = self)
    /\ (forall line rest,
          lines = line :: rest ->
          line = (node_header (pp_class_name (node self)) (node self)
                    (parent_edge self)
                  ++ depth_annotation self 0)%string).
Proof.
  unfold print_tree.
  destruct (print_tree_helper_spec md pt (S (height (node self))) self
              (PyStr "") [] [None] 0) as [lines [E F]];
    [lia | discriminate |].
  rewrite E. eexists; exists lines. split; [reflexivity |].
  simpl print_tree_visits in F.
  destruct (beyond md 0) eqn:Eb.
  - inversion F; subst.
    split; [| split; [reflexivity | discriminate]].
    split; [| reflexivity]. intros _.
    destruct md as [m |]; [| discriminate]. exists m. split; [reflexivity |].
    simpl in Eb. now apply Z.ltb_lt.
  - inversion F as [| v line vs rest Hline Hrest]; subst.
    split.
    { split; [discriminate |]. intros [m [-> Hm]]. simpl in Eb.
      apply Z.ltb_ge in Eb. lia. }
    split; [discriminate |].
    intros line' rest' [= <- <-].
    unfold visit_line in Hline. simpl in Hline.
    change [@None position] with (@nil (option position) ++ [None])%list
      in Hline.
    rewrite print_line_last in Hline.
    destruct (NodePP_str_spec (set_print_children self false))
      as [listing [_ Hs]].
    simpl in Hs. rewrite Hs in Hline. simpl in Hline.
    injection Hline as <-. unfold depth_annotation, isinstance_VNode. simpl.
    destruct (cls (node self)); [reflexivity | now rewrite str_append_nil_r].
Qed.

Lemma beyond_bound_le (md md' : option Z) (d : Z) :
  bound_le md md' -> beyond md d = false -> beyond md' d = false.
Proof.
  destruct md as [m |], md' as [m' |]; simpl; try tauto; try reflexivity.
  rewrite !Z.ltb_ge. lia.
Qed.

Lemma walk_app (q rest : list label) :
  forall (root : TreeNode) (ns : list TreeNode),
    walk root (q ++ rest) = Some ns ->
    exists ns1 ns2, ns = (ns1 ++ ns2)%list /\ walk root q = Some ns1.
Proof.
  induction q as [| c q IH]; intros root ns H; simpl in *.
  - exists [], ns. auto.
  - destruct (dict_get (children root) c) as [child |]; [| discriminate].
    destruct (walk child (q ++ rest)) as [ns' |] eqn:E; [| discriminate].
    injection H as <-.
    destruct (IH child ns' E) as [ns1 [ns2 [-> Hq]]].
    exists (child :: ns1), ns2. rewrite Hq. auto.
Qed.

Lemma count_decisions_app (ns1 ns2 : list TreeNode) :
  count_decisions (ns1 ++ ns2) = count_decisions ns1 + count_decisions ns2.
Proof.
  unfold count_decisions. rewrite filter_app, length_app. lia.
Qed.

(* ------------------------------------------------------------------ *)
(** ** Further properties: counting *)

Lemma sum_flat_map_length {A B} (g : A -> list B) (l : list A) :
  Z.of_nat (List.length (flat_map g l))
  = fold_right Z.add 0 (map (fun x => Z.of_nat (List.length (g x))) l).
Proof.
  induction l as [| x xs IH]; simpl; [reflexivity |].
  rewrite length_app. lia.
Qed.

Lemma sum_Permutation (l l' : list Z) :
  Permutation l l' -> fold_right Z.add 0 l = fold_right Z.add 0 l'.
Proof. induction 1; simpl; lia. Qed.

Lemma sum_map_add {A} (f g : A -> Z) (l : list A) :
  fold_right Z.add 0 (map (fun x => f x + g x) l)
  = fold_right Z.add 0 (map f l) + fold_right Z.add 0 (map g l).
Proof. induction l as [| x xs IH]; simpl; lia. Qed.

Lemma map_snd_enumerate {A} (l : list A) : map snd (enumerate l) = l.
Proof.
  unfold enumerate. generalize 0%nat.
  induction l as [| x xs IH]; intros s0; simpl; [reflexivity |].
  f_equal. apply IH.
Qed.

(** The sum over the edges in sorted order is the sum over the children. *)
Lemma sum_sorted_keys (d : dict) (g : TreeNode -> Z) :
  NoDup (keys d) ->
  fold_right Z.add 0
    (map (fun c => match dict_get d c with Some ch => g ch | None => 0 end)
       (sorted_by_str (keys d)))
  = fold_right Z.add 0 (map (fun kv => g (snd kv)) d).
Proof.
  intros Hnd. rewrite <- (map_keys_NoDup d g 0 Hnd).
  apply sum_Permutation, Permutation_map. symmetry. apply sorted_by_str_perm.
Qed.

Lemma print_tree_visits_complete_count (fuel : nat) :
  forall (root : NodePP) (path : list label) (bp : list (option position))
         (depth : Z),
    (height (node root) < fuel)%nat ->
    dict_ok (node root) ->
    Z.of_nat (List.length
                (print_tree_visits fuel root path bp depth None "complete"))
    = count_nodes VNode (node root) + count_nodes QNode (node root).
Proof.
  induction fuel as [| fuel' IH]; intros root path bp depth Hh Hok; [lia |].
  destruct (dict_ok_inv _ Hok) as [Hnd Hsub].
  simpl print_tree_visits. simpl List.length.
  rewrite Nat2Z.inj_succ, sum_flat_map_length.
  rewrite (map_ext_in _
             (fun ic : Z * label =>
                match dict_get (children (node root)) (snd ic) with
                | Some ch => count_nodes VNode ch + count_nodes QNode ch
                | None => 0
                end)).
  - rewrite <- (map_map snd
                  (fun c => match dict_get (children (node root)) c with
                            | Some ch => count_nodes VNode ch + count_nodes QNode ch
                            | None => 0
                            end)).
    rewrite map_snd_enumerate.
    rewrite (sum_sorted_keys (children (node root))
               (fun ch => count_nodes VNode ch + count_nodes QNode ch) Hnd).
    rewrite sum_map_add.
    rewrite (count_nodes_unfold VNode), (count_nodes_unfold QNode).
    destruct (cls (node root)); lia.
  - intros [i c] Hin. simpl snd.
    apply enumerate_In_r in Hin. apply (proj1 (sorted_by_str_In _ _)) in Hin.
    destruct (dict_get_In_keys _ _ Hin) as [child Hchild].
    rewrite (getitem_key (set_print_children root false) _ _ Hchild).
    simpl in Hchild. rewrite Hchild. simpl.
    apply IH.
    + simpl. apply height_dict_get in Hchild. lia.
    + simpl. eapply Hsub; eauto.
Qed.

(** X11: a render of print type "complete" without depth bound prints one
    line for every node of the tree under the current proxy: with a coherent
    cache and well-formed dicts the number of lines is the count that
    [num_nodes('all')] returns. *)
Theorem complete_render_prints_every_node (self : TreeDebugger) :
  stats_cache_ok self ->
  dict_ok (node (TreeDebugger_c self)) ->
  exists lines self1 n self2,
    TreeDebugger_p self None "complete" = (inr lines, self1)
    /\ num_nodes self "all" = (inr n, self2)
    /\ Z.of_nat (List.length lines) = n
    /\ n = count_nodes VNode (node (TreeDebugger_c self))
           + count_nodes QNode (node (TreeDebugger_c self)).
Proof.
  intros Hcache Hok.
  unfold TreeDebugger_p, NodePP_p, print_tree.
  destruct (print_tree_helper_spec None "complete"
              (S (height (node (TreeDebugger_c self)))) (TreeDebugger_c self)
              (PyStr "") [] [None] 0) as [lines [E F]];
    [lia | discriminate |].
  rewrite E.
  assert (Hlen : Z.of_nat (List.length lines)
                 = count_nodes VNode (node (TreeDebugger_c self))
                   + count_nodes QNode (node (TreeDebugger_c self))).
  { apply Forall2_length in F. rewrite <- F.
    apply print_tree_visits_complete_count; [lia | assumption]. }
  clear F.
  destruct (get_stats_spec self) as [stats [self2 [Es [_ [_ [_ Hts]]]]]].
  specialize (Hts Hcache). unfold tree_stats in Hts.
  destruct (tree_stats_helper_counts (S (height (node (TreeDebugger_c self))))
              (TreeDebugger_c self) 0 initial_stats)
    as [st [Est [Hv Hq]]]; [lia | assumption |].
  rewrite Est in Hts. simpl in Hts. destruct st. simpl in *.
  injection Hts as <-.
  eexists lines, _, _, self2. split; [reflexivity |].
  unfold num_nodes. rewrite Es. simpl. split; [reflexivity |].
  split; lia.
Qed.

Lemma count_children_unfold (k : node_class) (t : TreeNode) :
  count_children k t
  = (match k, cls t with
     | VNode, VNode | QNode, QNode => Z.of_nat (List.length (children t))
     | _, _ => 0
     end)
    + fold_right Z.add 0 (map (fun kv => count_children k (snd kv)) (children t)).
Proof. destruct t. reflexivity. Qed.

Lemma sum_map_pred {A} (f g : A -> Z) (l : list A) :
  (forall x, In x l -> f x = g x - 1) ->
  fold_right Z.add 0 (map f l)
  = fold_right Z.add 0 (map g l) - Z.of_nat (List.length l).
Proof.
  induction l as [| x xs IH]; intros H; simpl List.length; simpl; [reflexivity |].
  rewrite (H x) by now left. rewrite IH by (intros y Hy; apply H; now right).
  lia.
Qed.

(** Every node but the root is the child of one node. *)
Lemma edges_are_nodes_minus_one (n : nat) :
  forall t,
    (height t < n)%nat ->
    count_children VNode t + count_children QNode t
    = count_nodes VNode t + count_nodes QNode t - 1.
Proof.
  induction n as [| n IH]; intros t Hh; [lia |].
  rewrite !count_children_unfold, !count_nodes_unfold.
  assert (H : fold_right Z.add 0
                (map (fun kv => count_children VNode (snd kv)) (children t))
              + fold_right Z.add 0
                  (map (fun kv => count_children QNode (snd kv)) (children t))
              = fold_right Z.add 0
                  (map (fun kv => count_nodes VNode (snd kv)) (children t))
                + fold_right Z.add 0
                    (map (fun kv => count_nodes QNode (snd kv)) (children t))
                - Z.of_nat (List.length (children t))).
  { rewrite <- !sum_map_add. apply sum_map_pred.
    intros kv Hin. apply IH. apply height_child in Hin. lia. }
  destruct (cls t); lia.
Qed.

Lemma tree_stats_helper_children (fuel : nat) :
  forall (root : NodePP) (depth : Z) (stats : Stats),
    (height (node root) < fuel)%nat ->
    dict_ok (node root) ->
    exists stats',
      _tree_stats_helper fuel root depth stats None = inr stats'
      /\ total_vnodes_children stats'
         = total_vnodes_children stats + count_children VNode (node root)
      /\ total_qnodes_children stats'
         = total_qnodes_children stats + count_children QNode (node root).
Proof.
  induction fuel as [| fuel' IH]; intros root depth stats Hh Hok; [lia |].
  simpl. destruct (dict_ok_inv _ Hok) as [Hnd Hsub].
  set (body := fun stats c =>
                 root_c <- getitem root c ;;
                 _tree_stats_helper fuel' root_c (depth + 1) stats None).
  assert (Hstep : forall acc c, In c (keys (children (node root))) ->
            exists child acc',
              dict_get (children (node root)) c = Some child
              /\ body acc c = inr acc'
              /\ total_vnodes_children acc'
                 = total_vnodes_children acc + count_children VNode child
              /\ total_qnodes_children acc'
                 = total_qnodes_children acc + count_children QNode child).
  { intros acc c Hin.
    destruct (dict_get_In_keys _ _ Hin) as [child Hchild].
    destruct (IH (_node_pp child (Some c)) (depth + 1) acc)
      as [acc' [E [Hv Hq]]].
    - simpl. apply height_dict_get in Hchild. lia.
    - simpl. eauto.
    - exists child, acc'. unfold body.
      rewrite (getitem_key _ _ _ Hchild). simpl. auto. }
  destruct (for_each_sum (keys (children (node root))) body
              total_vnodes_children
              (fun c => match dict_get (children (node root)) c with
                        | Some ch => count_children VNode ch
                        | None => 0
                        end))
    with (acc := visit_stats root depth stats) as [sv [Ev Mv]].
  { intros acc c Hin.
    destruct (Hstep acc c Hin) as [child [acc' [Hc [E [Hv _]]]]].
    exists acc'. now rewrite Hc. }
  destruct (for_each_sum (keys (children (node root))) body
              total_qnodes_children
              (fun c => match dict_get (children (node root)) c with
                        | Some ch => count_children QNode ch
                        | None => 0
                        end))
    with (acc := visit_stats root depth stats) as [sq [Eq Mq]].
  { intros acc c Hin.
    destruct (Hstep acc c Hin) as [child [acc' [Hc [E [_ Hq]]]]].
    exists acc'. now rewrite Hc. }
  assert (sq = sv) by congruence. subst sq.
  exists sv. split; [assumption |].
  rewrite Mv, Mq, !map_keys_NoDup by assumption.
  rewrite (count_children_unfold VNode), (count_children_unfold QNode).
  unfold visit_stats, isinstance_VNode.
  destruct (cls (node root)); simpl total_vnodes_children;
    simpl total_qnodes_children; split; lia.
Qed.

(** X12: the statistics of an unbounded traversal of a tree with well-formed
    dicts count every edge once: the two children totals add up to the
    number of nodes minus one; the record also carries the visit count and
    the value of the root. *)
Theorem tree_stats_edges (root : NodePP) :
  dict_ok (node root) ->
  exists stats,
    tree_stats root None = inr stats
    /\ total_vnodes_children stats + total_qnodes_children stats
       = total_vnodes stats + total_qnodes stats - 1
    /\ total_vnodes_children stats = count_children VNode (node root)
    /\ total_qnodes_children stats = count_children QNode (node root)
    /\ stats_num_visits stats = Some (num_visits (node root))
    /\ stats_value stats = Some (value (node root)).
Proof.
  intros Hok. unfold tree_stats.
  destruct (tree_stats_helper_children (S (height (node root))) root 0
              initial_stats) as [s [Es [Hv Hq]]]; [lia | assumption |].
  destruct (tree_stats_helper_counts (S (height (node root))) root 0
              initial_stats) as [s' [Es' [Hnv Hnq]]]; [lia | assumption |].
  assert (s' = s) by congruence. subst s'.
  rewrite Es. simpl. destruct s. simpl in *.
  eexists. split; [reflexivity |]. simpl.
  pose proof (edges_are_nodes_minus_one (S (height (node root))) (node root)
                (Nat.lt_succ_diag_r _)).
  repeat split; lia.
Qed.

(* ------------------------------------------------------------------ *)
(** ** Further properties: depth, cache and layers *)

Lemma height_pos (t : TreeNode) : (0 < height t)%nat.
Proof. destruct t. simpl. lia. Qed.

Lemma tree_stats_helper_depth_range (md : option Z) (fuel : nat) :
  forall (root : NodePP) (depth : Z) (stats : Stats),
    (height (node root) < fuel)%nat ->
    exists stats',
      _tree_stats_helper fuel root depth stats md = inr stats'
      /\ ((max_depth stats' = max_depth stats
           /\ (isinstance_VNode root = true -> beyond md depth = true))
          \/ (depth <= max_depth stats' < depth + Z.of_nat (height (node root))
              /\ beyond md (max_depth stats') = false)).
Proof.
  induction fuel as [| fuel' IH]; intros root depth stats Hh; [lia |].
  simpl. destruct (beyond md depth) eqn:Eb.
  - exists stats. split; [reflexivity |]. left. auto.
  - destruct (for_each_invariant (keys (children (node root)))
                (fun stats c =>
                   root_c <- getitem root c ;;
                   _tree_stats_helper fuel' root_c (depth + 1) stats md)
                (fun a b =>
                   max_depth b = max_depth a
                   \/ (depth + 1 <= max_depth b
                                  < depth + Z.of_nat (height (node root))
                       /\ beyond md (max_depth b) = false)))
      with (acc := visit_stats root depth stats) as [stats' [E M]].
    + intros acc. now left.
    + intros a b d [Hab | Hab] [Hbd | Hbd]; [left; congruence | | |];
        right; try assumption. now rewrite Hbd.
    + intros acc c Hin.
      destruct (dict_get_In_keys _ _ Hin) as [child Hchild].
      rewrite (getitem_key _ _ _ Hchild). simpl.
      destruct (IH (_node_pp child (Some c)) (depth + 1) acc)
        as [acc' [E [[Hm _] | [Hr Hb]]]].
      * simpl. apply height_dict_get in Hchild. lia.
      * exists acc'. split; [exact E | now left].
      * exists acc'. split; [exact E |]. right. split; [| exact Hb].
        simpl in Hr. apply height_dict_get in Hchild. lia.
    + exists stats'. split; [exact E |].
      pose proof (height_pos (node root)) as Hpos.
      unfold visit_stats in M.
      destruct (isinstance_VNode root) eqn:Ev; simpl in M.
      * right. destruct M as [M | [Hr Hb]].
        { rewrite M. split; [lia | exact Eb]. }
        split; [lia | exact Hb].
      * destruct M as [M | [Hr Hb]].
        { left. split; [exact M | discriminate]. }
        right. split; [lia | exact Hb].
Qed.

(** X13: the [max_depth] field of the statistics is at least -1, less than
    the height of the tree and, when the traversal has a depth bound that
    is not negative, at most that bound; it is not negative when the root
    is a decision node within the bound. *)
Theorem tree_stats_max_depth_range (root : NodePP) (md : option Z) :
  exists stats,
    tree_stats root md = inr stats
    /\ -1 <= max_depth stats < Z.of_nat (height (node root))
    /\ (forall m, md = Some m -> max_depth stats <= Z.max m (-1))
    /\ (isinstance_VNode root = true -> beyond md 0 = false ->
        0 <= max_depth stats).
Proof.
  unfold tree_stats.
  destruct (tree_stats_helper_depth_range md (S (height (node root))) root 0
              initial_stats) as [s [Es Hr]]; [lia |].
  rewrite Es. simpl. destruct s. simpl in *.
  eexists. split; [reflexivity |]. simpl.
  pose proof (height_pos (node root)) as Hpos.
  destruct Hr as [[Hm Hv] | [Hr Hb]].
  - split; [lia |]. split; [intros m _; lia |].
    intros Hroot Hbeyond. rewrite (Hv Hroot) in Hbeyond. discriminate.
  - split; [lia |]. split; [| lia].
    intros m ->. simpl in Hb. apply Z.ltb_ge in Hb. lia.
Qed.

(** X14: [_get_stats] always returns statistics, changes nothing of the
    debugger but the cache, keeps every entry the cache has, serves a cached
    entry for the current proxy as it is, and leaves the debugger unchanged
    when it is called again. *)
Theorem get_stats_caches (self : TreeDebugger) :
  exists stats self',
    _get_stats self = (inr stats, self')
    /\ heap self' = heap self
    /\ tree self' = tree self
    /\ current self' = current self
    /\ self_parent_edge self' = self_parent_edge self
    /\ (forall id s,
          cache_get (_stats_cache self) id = Some s ->
          cache_get (_stats_cache self') id = Some s)
    /\ (forall s,
          cache_get (_stats_cache self) (current self) = Some s ->
          stats = s /\ self' = self)
    /\ (cache_get (_stats_cache self) (current self) = None ->
        tree_stats (TreeDebugger_c self) None = inr stats)
    /\ _get_stats self' = (inr stats, self').
Proof.
  assert (Hkeep : forall (cache : list (nat * Stats)) id s extra,
             cache_get cache id = Some s ->
             cache_get (cache ++ extra) id = Some s).
  { induction cache as [| [k v] rest IH]; simpl; intros id s extra H;
      [discriminate |].
    destruct (Nat.eqb id k); [exact H | now apply IH]. }
  unfold _get_stats.
  destruct (cache_get (_stats_cache self) (current self)) as [stats |] eqn:Ec.
  - exists stats, self. rewrite Ec.
    repeat split; auto; try congruence; try discriminate.
  - destruct (tree_stats_total (TreeDebugger_c self) None) as [stats Hs].
    rewrite Hs. eexists; eexists. split; [reflexivity |]. simpl.
    do 4 (split; [reflexivity |]).
    split; [intros id s H; now apply Hkeep |].
    split; [discriminate |].
    split; [intros _; reflexivity |].
    now rewrite (cache_get_app _ _ stats Ec).
Qed.

(** X15: for a debugger with a coherent cache whose current proxy is a
    decision node, [layer(0)] does not raise and returns the current proxy
    alone. *)
Theorem layer_zero (self : TreeDebugger) :
  stats_cache_ok self ->
  isinstance_VNode (TreeDebugger_c self) = true ->
  fst (layer self 0) = inr [TreeDebugger_c self].
Proof.
  intros Hok Hv.
  destruct (get_stats_spec self) as [stats [self' [E [Hh [Hc [_ Hts]]]]]].
  specialize (Hts Hok).
  assert (Hd : 0 <= max_depth stats).
  { unfold tree_stats in Hts.
    destruct (tree_stats_helper_depth_range None
                (S (height (node (TreeDebugger_c self)))) (TreeDebugger_c self)
                0 initial_stats) as [s [Es Hr]]; [lia |].
    rewrite Es in Hts. simpl in Hts. destruct s. simpl in *.
    injection Hts as <-. simpl.
    destruct Hr as [[_ Hb] | [Hr _]]; [| lia].
    specialize (Hb Hv). discriminate. }
  assert (Hcur : TreeDebugger_c self' = TreeDebugger_c self)
    by (unfold TreeDebugger_c; now rewrite Hh, Hc).
  unfold layer, TreeDebugger_depth. rewrite E. unfold bind. cbn [fst].
  rewrite Hcur. simpl.
  destruct (Z.ltb_spec (max_depth stats) 0) as [Hlt | _]; [lia |].
  now rewrite Hv.
Qed.

Lemma layer_loop_total (target_depth : Z) (fuel : nat) (root : NodePP)
  (current_depth : Z) (l : list label) :
  (forall c, In c l -> exists child,
       dict_get (children (node root)) c = Some child
       /\ (height child < fuel)%nat) ->
  forall nodes,
    exists found,
      for_each l
        (fun nodes c =>
           root_c <- getitem root c ;;
           let next_depth :=
             if isinstance_QNode root_c then current_depth
             else current_depth + 1 in
           _layer_helper fuel root_c next_depth target_depth nodes)
        nodes
      = inr (nodes ++ found)%list.
Proof.
  induction l as [| c rest IH]; intros Hl nodes; simpl.
  - exists []. now rewrite app_nil_r.
  - destruct (Hl c (or_introl eq_refl)) as [child [Hchild Hh]].
    rewrite (getitem_key _ _ _ Hchild). simpl.
    match goal with
    | |- context [_layer_helper fuel ?r ?d target_depth nodes] =>
        destruct (layer_helper_spec target_depth fuel r d nodes)
          as [f1 [E1 _]]; [exact Hh |]
    end.
    rewrite E1. simpl.
    destruct (IH (fun x Hx => Hl x (or_intror Hx)) (nodes ++ f1)%list)
      as [f2 E2].
    exists (f1 ++ f2)%list. now rewrite app_assoc.
Qed.

Lemma last_nonempty {A} (l : list A) (d d' : A) :
  l <> [] -> List.last l d = List.last l d'.
Proof.
  induction l as [| x xs IH]; intros Hne; [congruence |].
  destruct xs as [| y ys]; [reflexivity |].
  change (List.last (x :: y :: ys) d) with (List.last (y :: ys) d).
  change (List.last (x :: y :: ys) d') with (List.last (y :: ys) d').
  apply IH. discriminate.
Qed.

Lemma walk_length (path : list label) :
  forall root ns, walk root path = Some ns -> List.length ns = List.length path.
Proof.
  induction path as [| c rest IH]; intros root ns H; simpl in H.
  - now injection H as <-.
  - destruct (dict_get (children root) c) as [child |]; [| discriminate].
    destruct (walk child rest) as [ns' |] eqn:E; [| discriminate].
    injection H as <-. simpl. f_equal. eapply IH; eauto.
Qed.

Lemma proxy_at_cons (root : NodePP) (c : label) (child : TreeNode)
  (rest : list label) (ns : list TreeNode) :
  List.length ns = List.length rest ->
  proxy_at root (c :: rest) (child :: ns)
  = proxy_at (_node_pp child (Some c)) rest ns.
Proof.
  intros Hlen. unfold proxy_at.
  destruct rest as [| c' rest'].
  - destruct ns; [reflexivity | discriminate].
  - destruct ns as [| n' ns']; [discriminate |].
    rewrite !last_cons. reflexivity.
Qed.

Lemma last_In_nonempty {A} (l : list A) (d : A) :
  l <> [] -> In (List.last l d) l.
Proof.
  induction l as [| x xs IH]; intros Hne; [congruence |].
  destruct xs as [| y ys]; [now left |].
  right. change (List.last (x :: y :: ys) d) with (List.last (y :: ys) d).
  apply IH. discriminate.
Qed.

Lemma count_decisions_pos (ns : list TreeNode) (n : TreeNode) :
  In n ns -> is_VNode n = true -> 0 < count_decisions ns.
Proof.
  intros Hin Hv. unfold count_decisions.
  assert (H : In n (filter is_VNode ns)) by (apply filter_In; auto).
  destruct (filter is_VNode ns); [destruct H | simpl; lia].
Qed.

Lemma layer_helper_complete (target_depth : Z) (fuel : nat) :
  forall (root : NodePP) (current_depth : Z) (nodes : list NodePP)
         (path : list label) (ns : list TreeNode),
    (height (node root) < fuel)%nat ->
    walk (node root) path = Some ns ->
    is_VNode (List.last ns (node root)) = true ->
    current_depth + count_decisions ns = target_depth ->
    exists found,
      _layer_helper fuel root current_depth target_depth nodes
      = inr (nodes ++ found)%list
      /\ In (proxy_at root path ns) found.
Proof.
  induction fuel as [| fuel' IH];
    intros root current_depth nodes path ns Hh Hw Hv Hd; [lia |].
  simpl. destruct (current_depth =? target_depth) eqn:Ed.
  - apply Z.eqb_eq in Ed.
    assert (Hzero : count_decisions ns = 0) by lia.
    destruct path as [| c rest].
    + simpl in Hw. injection Hw as <-. simpl in Hv.
      unfold isinstance_VNode. unfold is_VNode in Hv.
      destruct (cls (node root)); [| discriminate].
      exists [root]. split; [reflexivity | now left].
    + exfalso.
      assert (Hne : ns <> []).
      { apply walk_length in Hw. destruct ns; [discriminate | discriminate]. }
      pose proof (count_decisions_pos ns _
                    (last_In_nonempty ns (node root) Hne) Hv). lia.
  - apply Z.eqb_neq in Ed.
    destruct path as [| c rest].
    { simpl in Hw. injection Hw as <-.
      unfold count_decisions in Hd. simpl in Hd. lia. }
    simpl in Hw.
    destruct (dict_get (children (node root)) c) as [child |] eqn:Hchild;
      [| discriminate].
    destruct (walk child rest) as [ns' |] eqn:Hw'; [| discriminate].
    injection Hw as <-.
    assert (Hkey : In c (sorted_by_str (keys (children (node root))))).
    { apply sorted_by_str_In. eapply dict_get_keys; eauto. }
    destruct (in_split _ _ Hkey) as [l1 [l2 Hsplit]].
    assert (Hall : forall x,
               In x (sorted_by_str (keys (children (node root)))) ->
               exists ch, dict_get (children (node root)) x = Some ch
                          /\ (height ch < fuel')%nat).
    { intros x Hx. apply (proj1 (sorted_by_str_In _ _)) in Hx.
      destruct (dict_get_In_keys _ _ Hx) as [ch Hch]. exists ch.
      split; [exact Hch |]. apply height_dict_get in Hch. lia. }
    rewrite Hsplit in *.
    rewrite for_each_app.
    match goal with
    | |- context [for_each l1 ?b ?a] =>
        assert (E1 : exists f1, for_each l1 b a = inr (a ++ f1)%list)
    end.
    { apply layer_loop_total. intros x Hx. apply Hall. apply in_or_app.
      now left. }
    destruct E1 as [f1 E1]. rewrite E1. simpl bind. simpl for_each.
    rewrite (getitem_key _ _ _ Hchild). simpl bind. cbv zeta.
    match goal with
    | |- context [_layer_helper fuel' ?r ?d target_depth ?a] =>
        destruct (IH r d a rest ns') as [fc [Ec Hin]]
    end.
    + simpl. apply height_dict_get in Hchild. lia.
    + exact Hw'.
    + simpl. now rewrite last_cons in Hv.
    + rewrite count_decisions_cons in Hd.
      unfold isinstance_QNode, is_VNode in *. simpl.
      destruct (cls child); lia.
    + rewrite Ec. simpl bind.
      match goal with
      | |- context [for_each l2 ?b ?a] =>
          assert (E2 : exists f2, for_each l2 b a = inr (a ++ f2)%list)
      end.
      { apply layer_loop_total. intros x Hx. apply Hall. apply in_or_app.
        right. now right. }
      destruct E2 as [f2 E2]. rewrite E2. exists (f1 ++ fc ++ f2)%list.
      split; [now rewrite !app_assoc |].
      apply in_or_app. right. apply in_or_app. left.
      rewrite proxy_at_cons; [exact Hin |].
      now apply walk_length in Hw'.
Qed.

(** X16: when [layer(d)] returns, its list holds the proxy of every decision
    node of the tree under the current proxy that is reached by a path
    entering exactly [d] decision nodes: the current proxy itself for the
    empty path, and otherwise a fresh proxy of the node with the last edge
    of the path as parent edge. *)
Theorem layer_complete (self : TreeDebugger) (d : Z) (nodes : list NodePP)
  (path : list label) (ns : list TreeNode) :
  fst (layer self d) = inr nodes ->
  walk (node (TreeDebugger_c self)) path = Some ns ->
  is_VNode (List.last ns (node (TreeDebugger_c self))) = true ->
  count_decisions ns = d ->
  In (proxy_at (TreeDebugger_c self) path ns) nodes.
Proof.
  intros Hl Hw Hv Hd.
  destruct (depth_spec self) as [stats [self' [_ [Hdepth Hc]]]].
  unfold layer in Hl. rewrite Hdepth in Hl. unfold bind in Hl. cbn [fst] in Hl.
  destruct ((d <? 0) || (max_depth stats <? d)); [discriminate |].
  rewrite Hc in Hl.
  destruct (layer_helper_complete d (S (height (node (TreeDebugger_c self))))
              (TreeDebugger_c self) 0 [] path ns) as [found [E Hin]];
    try assumption; try lia.
  rewrite E in Hl. injection Hl as <-. exact Hin.
Qed.

(* ------------------------------------------------------------------ *)
(** ** Further properties: the preferred path and the debugger *)

Lemma other_best_spec (root : TreeNode) (b c : label) :
  In c (other_best root (Some b) (Finite (value_at root b))) ->
  In c (keys (children root)) /\ c <> b
  /\ (value_at root c == value_at root b)%Q.
Proof.
  unfold other_best. intros H. apply filter_In in H. destruct H as [Hin H].
  apply andb_true_iff in H. destruct H as [Hnb Heq].
  split; [exact Hin |]. split.
  - simpl in Hnb. apply negb_true_iff in Hnb. now apply label_eqb_neq.
  - simpl in Heq. now apply Qeq_bool_iff.
Qed.

Lemma first_greatest_max (root : TreeNode) (b : label) (bv : pyfloat) :
  first_greatest root (keys (children root)) (Some b, bv) ->
  bv = Finite (value_at root b)
  /\ Forall (fun c => (value_at root c <= value_at root b)%Q)
       (keys (children root)).
Proof.
  unfold first_greatest. simpl.
  intros [-> [before [after [-> [Hb Ha]]]]]. split; [reflexivity |].
  apply Forall_app. split.
  - eapply Forall_impl; [| exact Hb]. intros x Hx. now apply Qlt_le_weak.
  - constructor; [apply Qle_refl | exact Ha].
Qed.

Lemma preferred_helper_lines (md : option Z) (fuel : nat) :
  forall (root : TreeNode) (depth : Z) (lines : list preferred_line),
    _print_preferred_actions_helper fuel root depth md = inr lines ->
    Forall (preferred_line_ok root) lines
    /\ (List.length lines < height root)%nat
    /\ (forall m, md = Some m ->
          Z.of_nat (List.length lines) <= Z.max 0 (m - depth)).
Proof.
  induction fuel as [| fuel' IH]; intros root depth lines H; [discriminate H |].
  pose proof (height_pos root) as Hpos.
  simpl in H.
  destruct (match md with Some m => m <=? depth | None => false end) eqn:Eb.
  { injection H as <-. split; [constructor |]. split; [simpl; lia |].
    intros m _. simpl. lia. }
  assert (Hbound : forall m, md = Some m -> depth < m).
  { intros m ->. now apply Z.leb_gt in Eb. }
  destruct (preferred_loops root) as [bc [bv [E [Hinv Eq]]]].
  rewrite E in H. simpl in H. rewrite Eq in H. simpl in H.
  destruct bc as [b |].
  2:{ injection H as <-. split; [constructor |]. split; [simpl; lia |].
      intros m _. simpl. lia. }
  unfold TreeNode_getitem in H.
  destruct (dict_get (children root) b) as [child |] eqn:Ec.
  2:{ injection H as <-. split; [constructor |]. split; [simpl; lia |].
      intros m _. simpl. lia. }
  apply bind_inr in H. destruct H as [rest [Hrest [= <-]]].
  destruct (IH child (depth + 1) rest Hrest) as [Hok [Hlen Hm]].
  destruct (first_greatest_max root b bv Hinv) as [-> Hmax].
  pose proof (height_dict_get _ _ _ Ec) as Hh.
  split; [| split].
  - apply Forall_app. split.
    + destruct (cls child) eqn:Ek; constructor; [| constructor].
      exists [], [], child. simpl.
      split; [reflexivity |]. split; [exact Ec |]. split; [exact Ek |].
      destruct (cls root).
      * split; [intros Hin; apply other_best_spec in Hin; tauto |].
        split; [exact Hmax |].
        apply Forall_forall. intros c Hc. apply other_best_spec in Hc. tauto.
      * split; [intros [] |]. split; [exact Hmax | constructor].
    + eapply Forall_impl; [| exact Hok].
      intros line [path [ns [ch [Hw Hrestok]]]].
      exists (b :: path), (child :: ns), ch.
      split; [now apply walk_cons |].
      now rewrite last_cons.
  - rewrite length_app. unfold preferred_line in *.
    destruct (cls child); simpl List.length; lia.
  - intros m Hmd. specialize (Hm m Hmd). specialize (Hbound m Hmd).
    rewrite length_app. unfold preferred_line in *.
    destruct (cls child); simpl List.length; lia.
Qed.



(** X17: every line that [print_preferred_actions] prints names an edge
    that leads from a node of the tree to an action node and whose child has
    the greatest value among the children of that node; the list printed
    with it never holds that edge itself, and holds only other edges of the
    node whose child has the same value. *)
Theorem print_preferred_actions_lines (tree : TreeNode) (md : option Z)
  (lines : list preferred_line) :
  print_preferred_actions tree md = inr lines ->
  Forall (preferred_line_ok tree) lines.
Proof.
  intros H. now apply (preferred_helper_lines md _ _ _ _ H).
Qed.

(** X18: [print_preferred_actions] prints fewer lines than the tree is
    high, at most [max_depth] lines when [max_depth] is given, and nothing
    when [max_depth] is zero or negative. *)
Theorem print_preferred_actions_bound (tree : TreeNode) (md : option Z)
  (lines : list preferred_line) :
  print_preferred_actions tree md = inr lines ->
  (List.length lines < height tree)%nat
  /\ (forall m, md = Some m -> Z.of_nat (List.length lines) <= Z.max 0 m)
  /\ (forall m, md = Some m -> m <= 0 -> lines = []).
Proof.
  intros H. destruct (preferred_helper_lines md _ _ _ _ H) as [_ [Hh Hm]].
  split; [exact Hh |].
  split.
  - intros m Hmd. specialize (Hm m Hmd). lia.
  - intros m Hmd Hle. specialize (Hm m Hmd).
    destruct lines; [reflexivity | simpl in Hm; lia].
Qed.

Lemma TreeDebugger_p_spec (self : TreeDebugger) (md : option Z) (pt : string) :
  exists lines root,
    print_tree (TreeDebugger_c self) md pt = inr (root, lines)
    /\ node root = node (TreeDebugger_c self)
    /\ parent_edge root = parent_edge (TreeDebugger_c self)
    /\ TreeDebugger_p self md pt
       = (inr lines,
          {| heap := fun a => if Nat.eqb a (current self) then root
                              else heap self a;
             tree := tree self; current := current self;
             self_parent_edge := self_parent_edge self;
             _stats_cache := _stats_cache self |}).
Proof.
  destruct (print_tree_returns (TreeDebugger_c self) md pt) as [lines E].
  eexists lines, _. split; [exact E |].
  split; [now destruct (beyond md 0) |].
  split; [now destruct (beyond md 0) |].
  unfold TreeDebugger_p, NodePP_p. now rewrite E.
Qed.

(** X19: [__repr__] of the debugger is "TreeDebugger@", a newline, and the
    string form of the current node with the parent edge of the debugger and
    always with the listing of the children; rendering with [p] or [pp],
    which switches the listing off in [__str__], leaves it unchanged. *)
Theorem repr_unchanged_by_rendering (self : TreeDebugger) (md : option Z)
  (pt : string) :
  (exists listing,
      children_listing (node (TreeDebugger_c self)) 1 = inr listing
      /\ TreeDebugger_repr self
         = inr ("TreeDebugger@" ++ newline
                ++ node_header (pp_class_name (node (TreeDebugger_c self)))
                     (node (TreeDebugger_c self)) (self_parent_edge self)
                ++ newline ++ listing ++ newline)%string)
  /\ TreeDebugger_repr (snd (TreeDebugger_p self md pt)) = TreeDebugger_repr self
  /\ TreeDebugger_repr (snd (TreeDebugger_pp self)) = TreeDebugger_repr self.
Proof.
  split.
  - destruct (children_listing_total (node (TreeDebugger_c self)) 1)
      as [listing E].
    exists listing. split; [exact E |].
    unfold TreeDebugger_repr, single_node_str. rewrite E. reflexivity.
  - assert (H : forall md pt,
               TreeDebugger_repr (snd (TreeDebugger_p self md pt))
               = TreeDebugger_repr self).
    { intros md0 pt0.
      destruct (TreeDebugger_p_spec self md0 pt0)
        as [lines [root [_ [Hn [_ Hp]]]]].
      rewrite Hp. unfold TreeDebugger_repr, TreeDebugger_c. simpl.
      rewrite Nat.eqb_refl. unfold TreeDebugger_c in Hn. now rewrite Hn. }
    split; [apply H |]. exact (H None "summary").
Qed.

(** X20: [p] of the debugger moves nothing: the cursor, the root reference,
    the parent edge and the cache stay as they are, every proxy object other
    than the current one is untouched, and the current proxy keeps its node
    and its parent edge; when the cursor is at the root, the root proxy is
    the proxy that the render has changed. *)
Theorem TreeDebugger_p_frame (self : TreeDebugger) (md : option Z)
  (pt : string) :
  exists lines self',
    TreeDebugger_p self md pt = (inr lines, self')
    /\ tree self' = tree self
    /\ current self' = current self
    /\ self_parent_edge self' = self_parent_edge self
    /\ _stats_cache self' = _stats_cache self
    /\ (forall a, a <> current self -> heap self' a = heap self a)
    /\ node (TreeDebugger_c self') = node (TreeDebugger_c self)
    /\ parent_edge (TreeDebugger_c self') = parent_edge (TreeDebugger_c self)
    /\ print_tree (TreeDebugger_c self) md pt
       = inr (TreeDebugger_c self', lines)
    /\ (tree self = current self ->
        TreeDebugger_root self' = TreeDebugger_c self').
Proof.
  destruct (TreeDebugger_p_spec self md pt)
    as [lines [root [E [Hn [He Hp]]]]].
  eexists lines, _. split; [exact Hp |]. simpl.
  do 4 (split; [reflexivity |]).
  split.
  { intros a Ha. apply Nat.eqb_neq in Ha. now rewrite Ha. }
  unfold TreeDebugger_c, TreeDebugger_root. simpl. rewrite Nat.eqb_refl.
  split; [exact Hn |]. split; [exact He |]. split; [exact E |].
  intros ->. now rewrite Nat.eqb_refl.
Qed.

Lemma get_stats_after_render (self : TreeDebugger) (md : option Z)
  (pt : string) :
  fst (_get_stats (snd (TreeDebugger_p self md pt))) = fst (_get_stats self).
Proof.
  destruct (TreeDebugger_p_spec self md pt) as [lines [root [_ [Hn [_ Hp]]]]].
  rewrite Hp. unfold _get_stats. simpl.
  destruct (cache_get (_stats_cache self) (current self)); [reflexivity |].
  unfold TreeDebugger_c at 1. simpl. rewrite Nat.eqb_refl.
  rewrite (tree_stats_node root (TreeDebugger_c self) None Hn).
  unfold TreeDebugger_c.
  now destruct (tree_stats (heap self (current self)) None).
Qed.

(** X22: rendering does not change what the debugger counts: after [p],
    whatever its options, [num_nodes] and [depth] return what they would
    have returned before. *)
Theorem counts_unchanged_by_rendering (self : TreeDebugger) (md : option Z)
  (pt : string) :
  (forall kind,
      fst (num_nodes (snd (TreeDebugger_p self md pt)) kind)
      = fst (num_nodes self kind))
  /\ fst (TreeDebugger_depth (snd (TreeDebugger_p self md pt)))
     = fst (TreeDebugger_depth self).
Proof.
  pose proof (get_stats_after_render self md pt) as H.
  split; [intros kind |];
    unfold num_nodes, TreeDebugger_depth;
    destruct (_get_stats (snd (TreeDebugger_p self md pt))) as [r1 s1];
    destruct (_get_stats self) as [r2 s2]; simpl in *; now subst.
Qed.

Lemma print_tree_visits_nodes (md : option Z) (pt : string) (fuel : nat) :
  forall (root : NodePP) (path : list label) (bp : list (option position))
         (depth : Z) (v : visit),
    (height (node root) < fuel)%nat ->
    In v (print_tree_visits fuel root path bp depth md pt) ->
    exists rest ns,
      visit_path v = (path ++ rest)%list
      /\ walk (node root) rest = Some ns
      /\ visit_depth v = depth + count_decisions ns
      /\ visit_root v = set_print_children (proxy_at root rest ns) false.
Proof.
  induction fuel as [| fuel' IH]; intros root path bp depth v Hh Hin; [lia |].
  simpl print_tree_visits in Hin. destruct (beyond md depth); [destruct Hin |].
  destruct Hin as [<- | Hin].
  - exists [], []. simpl. rewrite app_nil_r.
    repeat split. unfold count_decisions. simpl. lia.
  - apply in_flat_map in Hin. destruct Hin as [[i c] [Hic Hin]].
    apply enumerate_In_r in Hic. apply (proj1 (sorted_by_str_In _ _)) in Hic.
    destruct (dict_get_In_keys _ _ Hic) as [child Hchild].
    rewrite (getitem_key (set_print_children root false) _ _ Hchild) in Hin.
    simpl in Hin.
    destruct (String.eqb pt "complete" || (1 <? num_visits child));
      [| destruct Hin].
    apply IH in Hin; [| simpl; apply height_dict_get in Hchild; lia].
    destruct Hin as [rest [ns [Hp [Hw [Hd Hr]]]]]. simpl in Hw.
    exists (c :: rest), (child :: ns).
    split; [now rewrite Hp, <- app_assoc |].
    split; [now apply walk_cons |].
    split.
    + rewrite Hd, count_decisions_cons.
      unfold isinstance_QNode, is_VNode. simpl. destruct (cls child); lia.
    + rewrite Hr. f_equal. symmetry. apply proxy_at_cons.
      now apply walk_length in Hw.
Qed.

Lemma Forall2_In_left {A B} (R : A -> B -> Prop) (l1 : list A) (l2 : list B)
  (x : A) :
  Forall2 R l1 l2 -> In x l1 ->
  exists y, In (x, y) (combine l1 l2) /\ R x y.
Proof.
  induction 1 as [| a b l1' l2' Hab _ IH]; intros Hin; [destruct Hin |].
  destruct Hin as [-> | Hin].
  - exists b. split; [now left | exact Hab].
  - destruct (IH Hin) as [y [Hy HR]]. exists y. split; [now right | exact HR].
Qed.

Lemma Forall2_In_right {A B} (R : A -> B -> Prop) (l1 : list A) (l2 : list B)
  (y : B) :
  Forall2 R l1 l2 -> In y l2 ->
  exists x, In (x, y) (combine l1 l2) /\ R x y.
Proof.
  induction 1 as [| a b l1' l2' Hab _ IH]; intros Hin; [destruct Hin |].
  destruct Hin as [-> | Hin].
  - exists a. split; [now left | exact Hab].
  - destruct (IH Hin) as [x [Hx HR]]. exists x. split; [now right | exact HR].
Qed.

(** With the same fuel, a render with a larger depth bound and the same
    print type or the print type "complete" makes every visit of the
    smaller render, with the same proxy, branch positions and depth. *)
Lemma print_tree_visits_incl (md md' : option Z) (pt pt' : string)
  (fuel : nat) :
  bound_le md md' ->
  pt' = pt \/ pt' = "complete" ->
  forall (root : NodePP) (path : list label) (bp : list (option position))
         (depth : Z) (v : visit),
    In v (print_tree_visits fuel root path bp depth md pt) ->
    In v (print_tree_visits fuel root path bp depth md' pt').
Proof.
  intros Hle Hpt.
  induction fuel as [| fuel' IH]; intros root path bp depth v Hin;
    [destruct Hin |].
  simpl in Hin |- *.
  destruct (beyond md depth) eqn:Hb; [destruct Hin |].
  rewrite (beyond_bound_le _ _ _ Hle Hb).
  destruct Hin as [Hv | Hin]; [now left |]. right.
  apply in_flat_map in Hin. destruct Hin as [[i c] [Hic Hin]].
  apply in_flat_map. exists (i, c). split; [exact Hic |].
  destruct (getitem (set_print_children root false) c) as [e | root_c];
    [destruct Hin |].
  destruct (String.eqb pt "complete" || (1 <? num_visits (node root_c)))
    eqn:Hc; [| destruct Hin].
  assert (Hc' : String.eqb pt' "complete" || (1 <? num_visits (node root_c))
                = true).
  { destruct Hpt as [-> | ->]; [exact Hc | reflexivity]. }
  rewrite Hc'. apply IH. exact Hin.
Qed.

(** The paths visited by a render are closed under prefixes. *)
Lemma print_tree_visits_paths_prefix (self : NodePP) (md : option Z)
  (pt : string) (q rest : list label) :
  In (q ++ rest)%list
    (map visit_path
       (print_tree_visits (S (height (node self))) self [] [None] 0 md pt)) ->
  In q (map visit_path
          (print_tree_visits (S (height (node self))) self [] [None] 0 md pt)).
Proof.
  intros Hin.
  apply print_tree_visits_paths in Hin; [| lia].
  destruct Hin as [qr [ns [Heq [Hw [Hb Hf]]]]]. simpl in Heq. subst qr.
  destruct (walk_app q rest _ _ Hw) as [ns1 [ns2 [-> Hq]]].
  apply print_tree_visits_paths; [lia |].
  exists q, ns1. split; [reflexivity |]. split; [exact Hq |].
  split.
  - eapply beyond_mono; [| exact Hb].
    rewrite count_decisions_app.
    pose proof (count_decisions_nonneg ns2). lia.
  - destruct Hf as [Hf | Hf]; [now left |].
    right. apply Forall_app in Hf. exact (proj1 Hf).
Qed.

(** X9: a render with a depth bound at least as large and with the same
    print type or the print type "complete" prints everything the smaller
    render prints: both renders return, their lines are the lines of their
    visits in order, every visit of the smaller render (path, proxy, branch
    positions and depth) is a visit of the larger one, and every line the
    smaller render prints is a line the larger one prints; in particular
    "complete" prints every line that "summary" prints. *)
Theorem print_tree_monotone (self : NodePP) (md md' : option Z)
  (pt pt' : string) :
  bound_le md md' ->
  pt' = pt \/ pt' = "complete" ->
  let visits :=
    print_tree_visits (S (height (node self))) self [] [None] 0 md pt in
  let visits' :=
    print_tree_visits (S (height (node self))) self [] [None] 0 md' pt' in
  exists root lines root' lines',
    print_tree self md pt = inr (root, lines)
    /\ print_tree self md' pt' = inr (root', lines')
    /\ Forall2 visit_line visits lines
    /\ Forall2 visit_line visits' lines'
    /\ (forall v, In v visits -> In v visits')
    /\ (forall line, In line lines -> In line lines').
Proof.
  intros Hle Hpt visits visits'. unfold print_tree.
  destruct (print_tree_helper_spec md pt (S (height (node self))) self
              (PyStr "") [] [None] 0) as [lines [E F]];
    [lia | discriminate |].
  destruct (print_tree_helper_spec md' pt' (S (height (node self))) self
              (PyStr "") [] [None] 0) as [lines' [E' F']];
    [lia | discriminate |].
  rewrite E, E'. eexists; exists lines; eexists; exists lines'.
  split; [reflexivity |]. split; [reflexivity |].
  split; [exact F |]. split; [exact F' |].
  assert (Hincl : forall v, In v visits -> In v visits').
  { intros v. apply print_tree_visits_incl; assumption. }
  split; [exact Hincl |].
  intros line Hin.
  destruct (Forall2_In_right _ _ _ _ F Hin) as [v [Hv Hline]].
  apply in_combine_l in Hv.
  destruct (Forall2_In_left _ _ _ _ F' (Hincl v Hv)) as [line' [Hv' Hline']].
  apply in_combine_r in Hv'.
  unfold visit_line in Hline, Hline'. rewrite Hline in Hline'.
  injection Hline' as <-. exact Hv'.
Qed.

(** X10: a node is printed only below printed nodes: a render returns, its
    lines are the lines of its visits in order, and when it prints a line
    for the node at a path, it also prints a line for the node at every
    prefix of the path. *)
Theorem print_tree_prefix_closed (self : NodePP) (md : option Z)
  (pt : string) :
  let visits :=
    print_tree_visits (S (height (node self))) self [] [None] 0 md pt in
  exists root lines,
    print_tree self md pt = inr (root, lines)
    /\ Forall2 visit_line visits lines
    /\ forall v line q rest,
        In (v, line) (combine visits lines) ->
        visit_path v = (q ++ rest)%list ->
        exists v' line',
          In (v', line') (combine visits lines)
          /\ visit_path v' = q
          /\ visit_line v' line'.
Proof.
  intros visits. unfold print_tree.
  destruct (print_tree_helper_spec md pt (S (height (node self))) self
              (PyStr "") [] [None] 0) as [lines [E F]];
    [lia | discriminate |].
  rewrite E. eexists; exists lines. split; [reflexivity |].
  split; [exact F |].
  intros v line q rest Hin Hpath.
  apply in_combine_l in Hin.
  assert (Hq : In q (map visit_path visits)).
  { apply (print_tree_visits_paths_prefix self md pt q rest).
    rewrite <- Hpath. apply in_map. exact Hin. }
  apply in_map_iff in Hq. destruct Hq as [v' [Hv' Hin']].
  destruct (Forall2_In_left _ _ _ _ F Hin') as [line' [Hc Hl]].
  exists v', line'. split; [exact Hc |]. split; [exact Hv' | exact Hl].
Qed.

(** X23: every line of a render describes the node at the end of its path:
    the render returns, its lines are the lines of its visits in order, and
    for every visit and its line the path leads from the starting node to a
    node of the tree, the proxy printed is the starting proxy for the empty
    path and otherwise a proxy of that node with the last edge as parent
    edge, in both cases with the listing of the children switched off, the
    depth shown is the number of decision nodes entered along the path, the
    line is the line printed for that proxy at that depth, and the text of
    the node in it is the header of the node alone. *)
Theorem print_tree_lines_describe_nodes (self : NodePP) (md : option Z)
  (pt : string) :
  let visits :=
    print_tree_visits (S (height (node self))) self [] [None] 0 md pt in
  exists root lines,
    print_tree self md pt = inr (root, lines)
    /\ Forall2 visit_line visits lines
    /\ Forall2
         (fun v line =>
            exists ns,
              let proxy := proxy_at self (visit_path v) ns in
              walk (node self) (visit_path v) = Some ns
              /\ visit_depth v = count_decisions ns
              /\ visit_root v = set_print_children proxy false
              /\ print_line (set_print_children proxy false)
                   (visit_positions v) (count_decisions ns)
                 = inr line
              /\ NodePP_str (set_print_children proxy false)
                 = inr (node_header (pp_class_name (node proxy)) (node proxy)
                          (parent_edge proxy)))
         visits lines.
Proof.
  intros visits. unfold print_tree.
  destruct (print_tree_helper_spec md pt (S (height (node self))) self
              (PyStr "") [] [None] 0) as [lines [E F]];
    [lia | discriminate |].
  rewrite E. eexists; exists lines. split; [reflexivity |].
  split; [exact F |].
  eapply Forall2_In_impl; [| exact F].
  intros v line Hin Hline.
  apply print_tree_visits_nodes in Hin; [| lia].
  destruct Hin as [rest [ns [Hp [Hw [Hd Hr]]]]]. simpl in Hp. subst rest.
  exists ns. cbv zeta.
  assert (Hd' : visit_depth v = count_decisions ns) by lia.
  split; [exact Hw |]. split; [exact Hd' |]. split; [exact Hr |].
  split.
  - unfold visit_line in Hline. rewrite Hr, Hd' in Hline. exact Hline.
  - destruct (NodePP_str_spec
                (set_print_children (proxy_at self (visit_path v) ns) false))
      as [listing [_ Hs]].
    exact Hs.
Qed.

End Debugging.

(* ------------------------------------------------------------------ *)
(** ** Examples *)

Ltac solve_dict_ok :=
  repeat first
    [ apply dict_ok_intro; simpl
    | apply NoDup_nil
    | apply NoDup_cons; [simpl; intuition discriminate |]
    | apply Forall_nil
    | apply Forall_cons; simpl ].

Ltac solve_alternates :=
  repeat first
    [ apply alternates_intro; simpl
    | apply Forall_nil
    | apply Forall_cons; simpl
    | discriminate ].


Lemma chain_dict_ok : dict_ok chain.
Proof. solve_dict_ok. Defined.

Lemma chain_alternates : alternates chain.
Proof. solve_alternates. Defined.


Lemma init_stats_cache_ok (t : TreeNode) :
  stats_cache_ok similar_example (TreeDebugger_init t).
Proof. intros stats H. discriminate H. Defined.

(** The scenario of the renderer: "summary" hides "down", "complete" shows
    both children, in the order of their string forms. *)
Example up_down_summary :
  map visit_path
    (print_tree_visits similar_example (S (height up_down))
       (_node_pp up_down None) [] [None] 0 None "summary")
  = [[]; [PyStr "up"]]
  /\ map visit_path
       (print_tree_visits similar_example (S (height up_down))
          (_node_pp up_down None) [] [None] 0 None "complete")
     = [[]; [PyStr "down"]; [PyStr "up"]]
  /\ option_map snd
       (match print_tree similar_example plain plain plain plain format_example
                (_node_pp up_down None) None "summary" with
        | inr r => Some r
        | inl _ => None
        end)
     = Some ["_VNodePP(n=6, v=0)(depth=0)"; "└─── up⟶_QNodePP(n=5, v=1)"]
  /\ fst (num_nodes similar_example (TreeDebugger_init up_down) "q") = inr 2.
Proof. repeat split; reflexivity. Qed.

(** The scenario of the lookup: the edges sort as "down", "up"; an exact
    label, an index and a similar string reach the same child. *)
Example up_down_lookup :
  getitem similar_example (_node_pp up_down None) (PyInt 0)
  = inr (_node_pp (leaf QNode 1 2) (Some (PyStr "down")))
  /\ getitem similar_example (_node_pp up_down None) (PyInt 1)
     = inr (_node_pp (leaf QNode 5 1) (Some (PyStr "up")))
  /\ getitem similar_example (_node_pp up_down None) (PyStr "up")
     = inr (_node_pp (leaf QNode 5 1) (Some (PyStr "up")))
  /\ getitem similar_example (_node_pp up_down None) (PyInt 2) = inl IndexError
  /\ getitem similar_example (_node_pp up_down None) (PyStr "left")
     = inl (ValueError (CannotAccessChildren (PyStr "left"))).
Proof. repeat split; reflexivity. Qed.

(** The scenario of the preferred path: "down" is selected, nothing is
    equally good. *)
Example up_down_preferred :
  print_preferred_actions up_down None = inr [(PyStr "down", [])].
Proof. reflexivity. Qed.

(** C1: on the chain decision - action - decision, [tree_stats] returns
    [max_depth = 2], the number of edges to the last decision node visited,
    where the greatest depth of a decision node as the renderer counts it
    is 1; and on a tree whose deepest decision node is visited before a
    shallower one it returns 2 where that greatest depth is 3. *)
Theorem tree_stats_max_depth_chain :
  (exists stats,
      tree_stats similar_example (_node_pp chain None) None = inr stats
      /\ max_depth stats = 2
      /\ decision_max_depth chain 0 = 1)
  /\ (exists stats,
        tree_stats similar_example (_node_pp deep_first None) None = inr stats
        /\ max_depth stats = 2
        /\ decision_max_depth deep_first 0 = 3).
Proof. split; eexists; repeat split; reflexivity. Qed.

(** C5: on a node without children a string key raises the [ValueError] of
    [max()] on an empty sequence, not the one that names the key. *)
Theorem getitem_str_childless :
  getitem similar_example (_node_pp childless None) (PyStr "up")
  = inl (ValueError MaxEmptySequence)
  /\ getitem similar_example (_node_pp childless None) (PyStr "up")
     <> inl (ValueError (CannotAccessChildren (PyStr "up"))).
Proof. split; [reflexivity | discriminate]. Qed.

(** C4, as stated, fails at the key -1: it is outside [0, len(children)) and
    the lookup returns the last child in sorted order. *)
Lemma getitem_negative_index :
  dict_contains (PyInt (-1)) (children up_down) = false
  /\ getitem similar_example (_node_pp up_down None) (PyInt (-1))
     = inr (_node_pp (leaf QNode 5 1) (Some (PyStr "up")))
  /\ ~ (getitem similar_example (_node_pp up_down None) (PyInt (-1))
        = inl IndexError
        <-> ~ (0 <= -1 < Z.of_nat (List.length (children up_down)))).
Proof.
  split; [reflexivity |]. split; [reflexivity |].
  intros [_ H]. discriminate H. lia.
Qed.

(** C9, as stated, fails for a negative [max_depth]: the call returns at
    once and the flag stays on. *)
Lemma print_tree_negative_max_depth :
  print_tree similar_example plain plain plain plain format_example
    (_node_pp up_down None) (Some (-1)) "summary"
  = inr (_node_pp up_down None, [])
  /\ print_children (_node_pp up_down None) = true.
Proof. split; reflexivity. Qed.

(* ------------------------------------------------------------------ *)
(** ** The theorems at concrete inputs *)

Lemma layer_spec_witness :
  exists m nodes,
    fst (TreeDebugger_depth similar_example (TreeDebugger_init chain)) = inr m
    /\ ~ (1 < 0 \/ m < 1)
    /\ fst (layer similar_example (TreeDebugger_init chain) 1) = inr nodes
    /\ alternates (node (TreeDebugger_c (TreeDebugger_init chain)))
    /\ Forall
         (fun n =>
            isinstance_VNode n = true
            /\ exists path ns,
                walk (node (TreeDebugger_c (TreeDebugger_init chain))) path
                = Some ns
                /\ node n
                   = List.last ns
                       (node (TreeDebugger_c (TreeDebugger_init chain)))
                /\ count_decisions ns = 1
                /\ count_transitions
                     (node (TreeDebugger_c (TreeDebugger_init chain))) ns = 1)
         nodes.
Proof.
  destruct (layer_spec similar_example (TreeDebugger_init chain) 1)
    as [m [Hm [_ Hin]]].
  assert (Em : m = 2).
  { assert (H : fst (TreeDebugger_depth similar_example
                       (TreeDebugger_init chain)) = inr 2) by reflexivity.
    rewrite H in Hm. now injection Hm as <-. }
  assert (Hrange : ~ (1 < 0 \/ m < 1)) by (subst m; lia).
  destruct (Hin Hrange) as [nodes [E Hall]].
  exists m, nodes.
  split; [exact Hm |]. split; [exact Hrange |]. split; [exact E |].
  split; [exact chain_alternates |].
  eapply Forall_impl; [| exact Hall].
  intros n [Hv [path [ns [Hw [Hn [Hc Ht]]]]]].
  split; [exact Hv |]. exists path, ns.
  split; [exact Hw |]. split; [exact Hn |]. split; [exact Hc |].
  exact (Ht chain_alternates).
Defined.

Lemma getitem_int_index_witness :
  dict_contains (PyInt 0) (children (node (_node_pp up_down None))) = false
  /\ (let d := children (node (_node_pp up_down None)) in
      let edges := sorted_by_str (keys d) in
      let n := Z.of_nat (List.length d) in
      Sorted str_le edges
      /\ Permutation (keys d) edges
      /\ (getitem similar_example (_node_pp up_down None) (PyInt 0)
          = inl IndexError <-> 0 < - n \/ n <= 0)
      /\ (0 <= 0 < n ->
          exists e child,
            nth_error edges (Z.to_nat 0) = Some e
            /\ dict_get d e = Some child
            /\ getitem similar_example (_node_pp up_down None) (PyInt 0)
               = inr (_node_pp child (Some e)))
      /\ (- n <= 0 < 0 ->
          exists e child,
            nth_error edges (Z.to_nat (n + 0)) = Some e
            /\ dict_get d e = Some child
            /\ getitem similar_example (_node_pp up_down None) (PyInt 0)
               = inr (_node_pp child (Some e)))).
Proof.
  split; [reflexivity |].
  exact (getitem_int_index similar_example (_node_pp up_down None) 0 eq_refl).
Defined.


Lemma num_nodes_all_is_sum_witness :
  (exists a v q self1 self2 self3,
      num_nodes similar_example (TreeDebugger_init chain) "all" = (inr a, self1)
      /\ num_nodes similar_example self1 "v" = (inr v, self2)
      /\ num_nodes similar_example self2 "q" = (inr q, self3)
      /\ a = v + q
      /\ v = count_nodes VNode chain
      /\ q = count_nodes QNode chain)
  /\ fst (num_nodes similar_example (TreeDebugger_init chain) "vnodes")
     = inl (ValueError (InvalidKind "vnodes")).
Proof.
  destruct (num_nodes_all_is_sum similar_example (TreeDebugger_init chain))
    as [[a [v [q [s1 [s2 [s3 [H1 [H2 [H3 [H4 H5]]]]]]]]]] Hkind].
  split.
  - exists a, v, q, s1, s2, s3.
    destruct (H5 (init_stats_cache_ok chain) chain_dict_ok) as [Hv Hq].
    repeat split; assumption.
  - apply Hkind; discriminate.
Defined.

Lemma print_tree_switches_print_children_witness :
  (forall m, Some 1 = Some m -> 0 <= m)
  /\ (let self := _node_pp up_down None in
      let header :=
        node_header plain plain format_example (pp_class_name (node self))
          (node self) (parent_edge self) in
      let self' := set_print_children self false in
      (forall n e, print_children (_node_pp n e) = true)
      /\ exists lines listing,
          print_tree similar_example plain plain plain plain format_example
            self (Some 1) "summary" = inr (self', lines)
          /\ NodePP_p similar_example plain plain plain plain format_example
               self (Some 1) "summary" = inr (self', lines)
          /\ (exists lines',
                NodePP_pp similar_example plain plain plain plain
                  format_example self = inr (self', lines'))
          /\ node self' = node self
          /\ parent_edge self' = parent_edge self
          /\ print_children self' = false
          /\ NodePP_str plain plain plain format_example self' = inr header
          /\ children_listing plain plain plain format_example (node self) 1
             = inr listing
          /\ (print_children self = true ->
              NodePP_str plain plain plain format_example self
              = inr (header ++ newline ++ listing ++ newline)%string)
          /\ (forall dbg,
                TreeDebugger_c dbg = self ->
                exists dbg',
                  TreeDebugger_p similar_example plain plain plain plain
                    format_example dbg (Some 1) "summary" = (inr lines, dbg')
                  /\ TreeDebugger_c dbg' = self'
                  /\ TreeDebugger_str plain plain plain format_example dbg'
                     = inr header)
          /\ (forall md' pt',
                exists lines',
                  print_tree similar_example plain plain plain plain
                    format_example self' md' pt' = inr (self', lines'))).
Proof.
  assert (H : forall m, Some 1 = Some m -> 0 <= m).
  { intros m E. injection E as <-. lia. }
  split; [exact H |].
  exact (print_tree_switches_print_children similar_example plain plain plain
           plain format_example (_node_pp up_down None) (Some 1) "summary" H).
Defined.

Lemma childless_no_decision (path : list label) (ns : list TreeNode) :
  walk childless path = Some ns -> is_VNode (List.last ns childless) = false.
Proof.
  destruct path as [| c rest]; simpl; intros H; [| discriminate H].
  injection H as <-. reflexivity.
Defined.

Lemma no_decision_max_depth_witness :
  (exists stats,
      tree_stats similar_example (_node_pp childless None) (Some 3) = inr stats
      /\ max_depth stats = -1)
  /\ stats_cache_ok similar_example (TreeDebugger_init childless)
  /\ fst (TreeDebugger_depth similar_example (TreeDebugger_init childless))
     = inr (-1)
  /\ (0 <= 0 ->
      fst (layer similar_example (TreeDebugger_init childless) 0)
      = inl (ValueError (DepthOutOfRange 0 (-1)))).
Proof.
  destruct (no_decision_max_depth similar_example) as [Hstats Hdbg].
  split.
  - apply Hstats. intros path ns Hw _. exact (childless_no_decision path ns Hw).
  - split; [exact (init_stats_cache_ok childless) |].
    destruct (Hdbg (TreeDebugger_init childless) (init_stats_cache_ok childless)
                childless_no_decision) as [Hd Hl].
    split; [exact Hd |]. exact (Hl 0).
Defined.


(* ------------------------------------------------------------------ *)
(** ** The further properties at concrete inputs *)

Lemma sorted_by_str_idempotent_witness :
  Sorted str_le [PyStr "down"; PyStr "up"]
  /\ sorted_by_str [PyStr "down"; PyStr "up"] = [PyStr "down"; PyStr "up"].
Proof.
  assert (H : Sorted str_le [PyStr "down"; PyStr "up"]).
  { repeat constructor. }
  split; [exact H |].
  exact (proj2 (sorted_by_str_idempotent []) _ H).
Defined.

Lemma getitem_returns_child_witness :
  getitem similar_example (_node_pp up_down None) (PyInt 0)
  = inr (_node_pp (leaf QNode 1 2) (Some (PyStr "down")))
  /\ exists e,
      parent_edge (_node_pp (leaf QNode 1 2) (Some (PyStr "down"))) = Some e
      /\ dict_get (children (node (_node_pp up_down None))) e
         = Some (node (_node_pp (leaf QNode 1 2) (Some (PyStr "down"))))
      /\ print_children (_node_pp (leaf QNode 1 2) (Some (PyStr "down"))) = true
      /\ getitem similar_example (_node_pp up_down None) e
         = inr (_node_pp (leaf QNode 1 2) (Some (PyStr "down"))).
Proof.
  split; [reflexivity |].
  exact (getitem_returns_child similar_example (_node_pp up_down None)
           (PyInt 0) _ eq_refl).
Defined.

Lemma getitem_raises_witness :
  getitem similar_example (_node_pp up_down None) (PyInt 2) = inl IndexError
  /\ dict_contains (PyInt 2) (children (node (_node_pp up_down None))) = false
  /\ IndexError = IndexError
  /\ (2 < - Z.of_nat (List.length (children (node (_node_pp up_down None))))
      \/ Z.of_nat (List.length (children (node (_node_pp up_down None)))) <= 2).
Proof.
  split; [reflexivity |].
  exact (getitem_raises similar_example (_node_pp up_down None) (PyInt 2)
           IndexError eq_refl).
Defined.

Lemma getitem_str_first_best_witness :
  children (node (_node_pp up_down None)) <> []
  /\ dict_contains (PyStr "left") (children (node (_node_pp up_down None)))
     = false
  /\ exists chosen child before after,
      keys (children (node (_node_pp up_down None)))
      = (before ++ chosen :: after)%list
      /\ Forall (fun e => (similar_example (str e) "left"
                           < similar_example (str chosen) "left")%Q) before
      /\ Forall (fun e => (similar_example (str e) "left"
                           <= similar_example (str chosen) "left")%Q) after
      /\ dict_get (children (node (_node_pp up_down None))) chosen = Some child
      /\ ((SIMILAR_THRESH <= similar_example (str chosen) "left")%Q ->
          getitem similar_example (_node_pp up_down None) (PyStr "left")
          = inr (_node_pp child (Some chosen)))
      /\ ((similar_example (str chosen) "left" < SIMILAR_THRESH)%Q ->
          getitem similar_example (_node_pp up_down None) (PyStr "left")
          = inl (ValueError (CannotAccessChildren (PyStr "left")))).
Proof.
  assert (H : children (node (_node_pp up_down None)) <> [])
    by discriminate.
  split; [exact H |]. split; [reflexivity |].
  exact (getitem_str_first_best similar_example (_node_pp up_down None) "left"
           H eq_refl).
Defined.

Lemma print_tree_idempotent_witness :
  exists root lines,
    print_tree similar_example plain plain plain plain format_example
      (_node_pp up_down None) (Some 1) "summary" = inr (root, lines)
    /\ print_tree similar_example plain plain plain plain format_example
         root (Some 1) "summary" = inr (root, lines).
Proof.
  destruct (print_tree_returns similar_example plain plain plain plain
              format_example (_node_pp up_down None) (Some 1) "summary")
    as [lines E].
  eexists. exists lines. split; [exact E |].
  exact (print_tree_idempotent similar_example plain plain plain plain
           format_example _ _ _ _ _ E).
Defined.

Lemma complete_render_prints_every_node_witness :
  exists lines self1 n self2,
    TreeDebugger_p similar_example plain plain plain plain format_example
      (TreeDebugger_init chain) None "complete" = (inr lines, self1)
    /\ num_nodes similar_example (TreeDebugger_init chain) "all"
       = (inr n, self2)
    /\ Z.of_nat (List.length lines) = n
    /\ n = count_nodes VNode (node (TreeDebugger_c (TreeDebugger_init chain)))
           + count_nodes QNode (node (TreeDebugger_c (TreeDebugger_init chain))).
Proof.
  exact (complete_render_prints_every_node similar_example plain plain plain
           plain format_example (TreeDebugger_init chain)
           (init_stats_cache_ok chain) chain_dict_ok).
Defined.

Lemma tree_stats_edges_witness :
  exists stats,
    tree_stats similar_example (_node_pp chain None) None = inr stats
    /\ total_vnodes_children stats + total_qnodes_children stats
       = total_vnodes stats + total_qnodes stats - 1
    /\ total_vnodes_children stats
       = count_children VNode (node (_node_pp chain None))
    /\ total_qnodes_children stats
       = count_children QNode (node (_node_pp chain None))
    /\ stats_num_visits stats = Some (num_visits (node (_node_pp chain None)))
    /\ stats_value stats = Some (value (node (_node_pp chain None))).
Proof.
  exact (tree_stats_edges similar_example (_node_pp chain None) chain_dict_ok).
Defined.

Lemma layer_zero_witness :
  isinstance_VNode (TreeDebugger_c (TreeDebugger_init chain)) = true
  /\ fst (layer similar_example (TreeDebugger_init chain) 0)
     = inr [TreeDebugger_c (TreeDebugger_init chain)].
Proof.
  split; [reflexivity |].
  exact (layer_zero similar_example (TreeDebugger_init chain)
           (init_stats_cache_ok chain) eq_refl).
Defined.

Lemma layer_complete_witness :
  fst (layer similar_example (TreeDebugger_init chain) 1)
  = inr [_node_pp (leaf VNode 1 0) (Some (PyStr "o"))]
  /\ walk (node (TreeDebugger_c (TreeDebugger_init chain)))
       [PyStr "a"; PyStr "o"]
     = Some [mkTreeNode QNode 2 1 [(PyStr "o", leaf VNode 1 0)]; leaf VNode 1 0]
  /\ In (proxy_at (TreeDebugger_c (TreeDebugger_init chain))
           [PyStr "a"; PyStr "o"]
           [mkTreeNode QNode 2 1 [(PyStr "o", leaf VNode 1 0)]; leaf VNode 1 0])
       [_node_pp (leaf VNode 1 0) (Some (PyStr "o"))].
Proof.
  split; [reflexivity |]. split; [reflexivity |].
  exact (layer_complete similar_example (TreeDebugger_init chain) 1
           [_node_pp (leaf VNode 1 0) (Some (PyStr "o"))]
           [PyStr "a"; PyStr "o"]
           [mkTreeNode QNode 2 1 [(PyStr "o", leaf VNode 1 0)]; leaf VNode 1 0]
           eq_refl eq_refl eq_refl eq_refl).
Defined.

Lemma print_preferred_actions_lines_witness :
  print_preferred_actions up_down None = inr [(PyStr "down", [])]
  /\ Forall (preferred_line_ok up_down) [(PyStr "down", [])].
Proof.
  split; [reflexivity |].
  exact (print_preferred_actions_lines up_down None [(PyStr "down", [])]
           eq_refl).
Defined.

Lemma print_preferred_actions_bound_witness :
  print_preferred_actions up_down (Some 1) = inr [(PyStr "down", [])]
  /\ (List.length [(PyStr "down", @nil label)] < height up_down)%nat
  /\ Z.of_nat (List.length [(PyStr "down", @nil label)]) <= Z.max 0 1
  /\ print_preferred_actions up_down (Some 0) = inr []
  /\ @nil preferred_line = [].
Proof.
  split; [reflexivity |].
  destruct (print_preferred_actions_bound up_down (Some 1)
              [(PyStr "down", [])] eq_refl) as [Hh [Hm _]].
  split; [exact Hh |]. split; [exact (Hm 1 eq_refl) |].
  split; [reflexivity |].
  destruct (print_preferred_actions_bound up_down (Some 0) [] eq_refl)
    as [_ [_ Hz]].
  apply (Hz 0 eq_refl). lia.
Defined.


Lemma print_tree_monotone_witness :
  bound_le (Some 0) None
  /\ (let visits :=
        print_tree_visits similar_example (S (height up_down))
          (_node_pp up_down None) [] [None] 0 (Some 0) "summary" in
      let visits' :=
        print_tree_visits similar_example (S (height up_down))
          (_node_pp up_down None) [] [None] 0 None "complete" in
      exists root lines root' lines',
        print_tree similar_example plain plain plain plain format_example
          (_node_pp up_down None) (Some 0) "summary" = inr (root, lines)
        /\ print_tree similar_example plain plain plain plain format_example
             (_node_pp up_down None) None "complete" = inr (root', lines')
        /\ Forall2 (visit_line plain plain plain plain format_example)
             visits lines
        /\ Forall2 (visit_line plain plain plain plain format_example)
             visits' lines'
        /\ (forall v, In v visits -> In v visits')
        /\ (forall line, In line lines -> In line lines')).
Proof.
  split; [exact I |].
  exact (print_tree_monotone similar_example plain plain plain plain
           format_example (_node_pp up_down None) (Some 0) None
           "summary" "complete" I (or_intror eq_refl)).
Defined.

Lemma print_tree_prefix_closed_witness :
  let visits :=
    print_tree_visits similar_example (S (height chain))
      (_node_pp chain None) [] [None] 0 None "complete" in
  exists root lines,
    print_tree similar_example plain plain plain plain format_example
      (_node_pp chain None) None "complete" = inr (root, lines)
    /\ Forall2 (visit_line plain plain plain plain format_example) visits lines
    /\ forall v line q rest,
        In (v, line) (combine visits lines) ->
        visit_path v = (q ++ rest)%list ->
        exists v' line',
          In (v', line') (combine visits lines)
          /\ visit_path v' = q
          /\ visit_line plain plain plain plain format_example v' line'.
Proof.
  exact (print_tree_prefix_closed similar_example plain plain plain plain
           format_example (_node_pp chain None) None "complete").
Defined.

Lemma print_tree_lines_describe_nodes_witness :
  let visits :=
    print_tree_visits similar_example (S (height chain))
      (_node_pp chain None) [] [None] 0 None "complete" in
  exists root lines,
    print_tree similar_example plain plain plain plain format_example
      (_node_pp chain None) None "complete" = inr (root, lines)
    /\ Forall2 (visit_line plain plain plain plain format_example) visits lines
    /\ Forall2
         (fun v line =>
            exists ns,
              let proxy := proxy_at (_node_pp chain None) (visit_path v) ns in
              walk chain (visit_path v) = Some ns
              /\ visit_depth v = count_decisions ns
              /\ visit_root v = set_print_children proxy false
              /\ print_line plain plain plain plain format_example
                   (set_print_children proxy false)
                   (visit_positions v) (count_decisions ns)
                 = inr line
              /\ NodePP_str plain plain plain format_example
                   (set_print_children proxy false)
                 = inr (node_header plain plain format_example
                          (pp_class_name (node proxy)) (node proxy)
                          (parent_edge proxy)))
         visits lines.
Proof.
  exact (print_tree_lines_describe_nodes similar_example plain plain plain
           plain format_example (_node_pp chain None) None "complete").
Defined.
